(** * m87-assistant: the IPC mailbox drainer, its authorization gate,
      the Telegram pairing store and the Telegram message splitter.

    The development embeds [src/index.ts] ([startIpcWatcher],
    [processTaskIpc], [registerGroup]) and [src/telegram.ts]
    ([requestApproval], [approveUser], [denyUser], [unpairUser],
    the pairing gate of [handleMessage], [sendTelegramMessage],
    [sendTelegramResponse]) as executable functions over an explicit
    host state, and proves the properties of the specification about them. *)

From stdpp Require Import gmap strings list fin_maps.
From Stdlib Require Import ZArith Ascii DecimalString.

Open Scope string_scope.
Open Scope list_scope.

(** ** JavaScript values and built-ins used by the host *)

Module JS.

(** A JavaScript number as the host uses it: an integer or [NaN].
    (Task intervals, chat ids and user ids are integers; fractions and
    infinities are outside the model.) *)
Inductive number := Num (z : Z) | NaN.

#[global] Instance number_eq_dec : EqDecision number.
Proof. solve_decision. Defined.

Definition number_to_option (n : number) : option Z :=
  match n with Num z => Some z | NaN => None end.

Definition number_of_option (o : option Z) : number :=
  match o with Some z => Num z | None => NaN end.

#[global] Program Instance number_countable : Countable number :=
  inj_countable' number_to_option number_of_option _.
Next Obligation. by intros []. Qed.

Definition isNaN (n : number) : bool :=
  match n with NaN => true | Num _ => false end.

(** Truthiness of an optional string property: [undefined] and [""] are falsy. *)
Definition truthy (v : option string) : bool :=
  match v with
  | Some s => negb (String.eqb s "")
  | None => false
  end.

(** [s.startsWith(p)] *)
Definition startsWith (p s : string) : bool := String.prefix p s.

(** [s.endsWith(p)] *)
Definition endsWith (p s : string) : bool :=
  (String.length p <=? String.length s)%nat &&
  String.eqb (String.substring (String.length s - String.length p) (String.length p) s) p.

(** [s.replace(pat, rep)] with a string pattern: the first occurrence only. *)
Fixpoint replace (pat rep s : string) : string :=
  if String.prefix pat s
  then rep +:+ String.substring (String.length pat) (String.length s - String.length pat) s
  else match s with
       | EmptyString => EmptyString
       | String c s' => String c (replace pat rep s')
       end.

(** [s.slice(i, j)] for [0 <= i <= j] *)
Definition slice (s : string) (i j : nat) : string := String.substring i (j - i) s.

(** [String(n)] for an integer *)
Definition showZ (z : Z) : string := NilZero.string_of_int (Z.to_int z).

(** *** [parseInt(s, 10)] *)

Definition isWhiteSpace (c : Ascii.ascii) : bool :=
  let n := Ascii.nat_of_ascii c in
  (n =? 32)%nat || ((9 <=? n)%nat && (n <=? 13)%nat).

Definition digitValue (c : Ascii.ascii) : option Z :=
  let n := Ascii.nat_of_ascii c in
  if ((48 <=? n)%nat && (n <=? 57)%nat) then Some (Z.of_nat (n - 48)) else None.

Fixpoint skipWhiteSpace (s : string) : string :=
  match s with
  | String c s' => if isWhiteSpace c then skipWhiteSpace s' else s
  | EmptyString => s
  end.

(** The longest prefix of decimal digits, as a number; [None] when there is none. *)
Fixpoint readDigits (acc : option Z) (s : string) : option Z :=
  match s with
  | String c s' =>
      match digitValue c with
      | Some d => readDigits (Some (10 * default 0 acc + d)%Z) s'
      | None => acc
      end
  | EmptyString => acc
  end.

Definition parseInt (s : string) : number :=
  let s1 := skipWhiteSpace s in
  let '(negative, s2) :=
    match s1 with
    | String "-"%char r => (true, r)
    | String "+"%char r => (false, r)
    | _ => (false, s1)
    end in
  match readDigits None s2 with
  | None => NaN
  | Some n => Num (if negative then - n else n)%Z
  end.

(** *** Dates

    A [Date] holds a time value in milliseconds, or is invalid when the
    value is outside +-8.64e15 ([TimeClip]); [toISOString] throws a
    [RangeError] on an invalid date.  ISO timestamps are represented by the
    time value they denote. *)
Definition maxTimeValue : Z := 8640000000000000.

Definition TimeClip (t : Z) : option Z :=
  if (Z.abs t <=? maxTimeValue)%Z then Some t else None.

End JS.

Export JS.

(** ** Data model *)

(** [userId?: number | string] of a control request. *)
Inductive UserIdField := UidNumber (z : Z) | UidString (s : string).

(** The object a mailbox file parses to, with the properties the host reads
    ([processTaskIpc]'s parameter type, plus [text] of an outbound message).
    An absent property is [None].  Properties carry the types the handler
    declares. *)
Record IpcData := {
  d_type : option string;
  d_taskId : option string;
  d_prompt : option string;
  d_schedule_type : option string;
  d_schedule_value : option string;
  d_context_mode : option string;
  d_groupFolder : option string;
  d_chatJid : option string;
  d_text : option string;
  d_jid : option string;
  d_name : option string;
  d_folder : option string;
  d_trigger : option string;
  d_containerConfig : option string;
  d_userId : option UserIdField
}.

(** Outcome of [JSON.parse(fs.readFileSync(filePath, 'utf-8'))]: a
    [SyntaxError], the value [null] (any property read on it throws a
    [TypeError]), or a value whose properties can be read. *)
Inductive Parsed :=
| SyntaxError
| JsonNull
| JsonObject (data : IpcData).

(** [RegisteredGroup] of [types.ts], with the fields [processTaskIpc] fills
    in; [containerConfig] is carried uninterpreted. *)
Record RegisteredGroup := {
  g_name : string;
  g_folder : string;
  g_trigger : string;
  g_added_at : Z;
  g_containerConfig : option string
}.

(** A row of the task table ([createTask]'s argument). *)
Record ScheduledTask := {
  t_id : string;
  t_group_folder : string;
  t_chat_jid : string;
  t_prompt : string;
  t_schedule_type : string;
  t_schedule_value : string;
  t_context_mode : string;
  t_next_run : option Z;
  t_status : string;
  t_created_at : Z
}.

Record PairedUser := {
  pu_userId : number;
  pu_username : option string;
  pu_firstName : option string;
  pu_pairedAt : Z;
  pu_approvedBy : option string
}.

Record PendingApproval := {
  pa_userId : number;
  pa_username : option string;
  pa_firstName : option string;
  pa_requestedAt : Z;
  pa_firstMessage : string
}.

(** One accepted call of [bot.telegram.sendMessage] / [ctx.reply]. *)
Record TelegramSend := {
  ts_chat : number;
  ts_text : string;
  ts_markdown : bool
}.

Inductive MailboxKind := Messages | Tasks.

#[global] Instance MailboxKind_eq_dec : EqDecision MailboxKind.
Proof. solve_decision. Defined.

Definition kindDir (k : MailboxKind) : string :=
  match k with Messages => "messages" | Tasks => "tasks" end.

(** Observation points of the drainer, in program order. *)
Inductive Event :=
| EvElevation (sourceGroup : string) (kind : MailboxKind) (file : string) (isMain : bool)
    (** the entry [file] of [sourceGroup] is about to be handled under [isMain] *)
| EvUnlink (sourceGroup : string) (kind : MailboxKind) (file : string)
    (** [fs.unlinkSync(filePath)] *)
| EvQuarantine (sourceGroup : string) (kind : MailboxKind) (file : string)
    (** [fs.renameSync(filePath, errors/<sourceGroup>-<file>)] *).

(** The host environment: configuration constants ([config.ts]) and the
    library calls whose results the model takes as given. *)
Record Env := {
  MAIN_GROUP_FOLDER : string;
  ASSISTANT_NAME : string;
  (** [JSON.parse] on the text of a file *)
  JSON_parse : string -> Parsed;
  (** [CronExpressionParser.parse(v, { tz: TIMEZONE }).next()] at the given
      instant, as a time value; [None] when the parser throws *)
  cronNext : Z -> string -> option Z;
  (** [new Date(s).getTime()]; [None] is [NaN] *)
  dateParse : string -> option Z;
  (** [Number(s)] on a string *)
  numberOfString : string -> number;
  (** [Math.random().toString(36).slice(2, 8)] of the n-th draw *)
  randomSuffix : nat -> string;
  (** whether the Telegram API accepts [sendMessage(chat, text, parse_mode?)] *)
  telegramAccepts : number -> string -> bool -> bool
}.

(** The host state.  [fs] holds the regular files below [DATA_DIR/ipc], keyed
    by their path components; a directory exists when a file lies below it.
    [tasks] is the task table.  [registeredGroups], [pairedUsers] and
    [pendingApprovals] are the JSON objects kept in
    [registered_groups.json], [telegram_paired_users.json] and
    [telegram_pending_approvals.json] through [loadJson]/[saveJson];
    [groupDirs] are the group folders created so far.  [bot] tells whether
    the Telegram bot is started, [sent] lists what the Telegram API accepted,
    [now] is the clock read by [Date.now()] and [new Date()], [draws] counts
    the calls of [Math.random()], and [trace] records the drainer's
    observation points. *)
Record World := {
  fs : gmap (list string) string;
  tasks : gmap string ScheduledTask;
  registeredGroups : list (string * RegisteredGroup);
  groupDirs : gset string;
  pairedUsers : gmap number PairedUser;
  pendingApprovals : gmap number PendingApproval;
  bot : bool;
  sent : list TelegramSend;
  now : Z;
  draws : nat;
  trace : list Event
}.

Definition set_fs (f : gmap (list string) string) (w : World) : World :=
  {| fs := f; tasks := tasks w; registeredGroups := registeredGroups w;
     groupDirs := groupDirs w; pairedUsers := pairedUsers w;
     pendingApprovals := pendingApprovals w; bot := bot w; sent := sent w;
     now := now w; draws := draws w; trace := trace w |}.

Definition set_tasks (t : gmap string ScheduledTask) (w : World) : World :=
  {| fs := fs w; tasks := t; registeredGroups := registeredGroups w;
     groupDirs := groupDirs w; pairedUsers := pairedUsers w;
     pendingApprovals := pendingApprovals w; bot := bot w; sent := sent w;
     now := now w; draws := draws w; trace := trace w |}.

Definition set_groups (g : list (string * RegisteredGroup)) (d : gset string) (w : World) : World :=
  {| fs := fs w; tasks := tasks w; registeredGroups := g;
     groupDirs := d; pairedUsers := pairedUsers w;
     pendingApprovals := pendingApprovals w; bot := bot w; sent := sent w;
     now := now w; draws := draws w; trace := trace w |}.

Definition set_pairedUsers (p : gmap number PairedUser) (w : World) : World :=
  {| fs := fs w; tasks := tasks w; registeredGroups := registeredGroups w;
     groupDirs := groupDirs w; pairedUsers := p;
     pendingApprovals := pendingApprovals w; bot := bot w; sent := sent w;
     now := now w; draws := draws w; trace := trace w |}.

Definition set_pendingApprovals (p : gmap number PendingApproval) (w : World) : World :=
  {| fs := fs w; tasks := tasks w; registeredGroups := registeredGroups w;
     groupDirs := groupDirs w; pairedUsers := pairedUsers w;
     pendingApprovals := p; bot := bot w; sent := sent w;
     now := now w; draws := draws w; trace := trace w |}.

Definition set_sent (s : list TelegramSend) (w : World) : World :=
  {| fs := fs w; tasks := tasks w; registeredGroups := registeredGroups w;
     groupDirs := groupDirs w; pairedUsers := pairedUsers w;
     pendingApprovals := pendingApprovals w; bot := bot w; sent := s;
     now := now w; draws := draws w; trace := trace w |}.

Definition set_draws (n : nat) (w : World) : World :=
  {| fs := fs w; tasks := tasks w; registeredGroups := registeredGroups w;
     groupDirs := groupDirs w; pairedUsers := pairedUsers w;
     pendingApprovals := pendingApprovals w; bot := bot w; sent := sent w;
     now := now w; draws := n; trace := trace w |}.

Definition set_trace (t : list Event) (w : World) : World :=
  {| fs := fs w; tasks := tasks w; registeredGroups := registeredGroups w;
     groupDirs := groupDirs w; pairedUsers := pairedUsers w;
     pendingApprovals := pendingApprovals w; bot := bot w; sent := sent w;
     now := now w; draws := draws w; trace := t |}.

Definition emit (e : Event) (w : World) : World := set_trace (trace w ++ [e]) w.

(** How a block of the host ends: normally, or by a thrown exception. *)
Inductive Completion :=
| Normal (w : World)
| Thrown (w : World).

Definition worldOf (c : Completion) : World :=
  match c with Normal w | Thrown w => w end.


(** ** The task store ([db.ts]) *)

Module Db.

(** Modelled from the spec: [createTask] of [db.ts], which is not among the
    sources.  The spec describes the task store as a "durable table of
    scheduled jobs keyed by id": [createTask] inserts a row, and fails
    (throws) when the key is taken. *)
Definition createTask (t : ScheduledTask) (w : World) : Completion :=
  match tasks w !! t_id t with
  | Some _ => Thrown w
  | None => Normal (set_tasks (<[t_id t := t]> (tasks w)) w)
  end.

(** Modelled from the spec: [getTaskById] of [db.ts], the row with the
    given id, if any. *)
Definition getTaskById (id : string) (w : World) : option ScheduledTask :=
  tasks w !! id.

Definition withStatus (s : string) (t : ScheduledTask) : ScheduledTask :=
  {| t_id := t_id t; t_group_folder := t_group_folder t; t_chat_jid := t_chat_jid t;
     t_prompt := t_prompt t; t_schedule_type := t_schedule_type t;
     t_schedule_value := t_schedule_value t; t_context_mode := t_context_mode t;
     t_next_run := t_next_run t; t_status := s; t_created_at := t_created_at t |}.

(** Modelled from the spec: [updateTask(id, { status })] of [db.ts]; the
    control requests "flip [status]" of the row, and a missing row is no
    change. *)
Definition updateTask (id : string) (status : string) (w : World) : World :=
  set_tasks (alter (withStatus status) id (tasks w)) w.

(** Modelled from the spec: [deleteTask] of [db.ts]; "[cancel_task] deletes
    the row". *)
Definition deleteTask (id : string) (w : World) : World :=
  set_tasks (delete id (tasks w)) w.

End Db.

Export Db.

(** ** [telegram.ts] *)

Section Telegram.

Context (E : Env).

Definition deliver (chat : number) (text : string) (markdown : bool) (w : World) : World :=
  set_sent (sent w ++ [{| ts_chat := chat; ts_text := text; ts_markdown := markdown |}]) w.

(** [const maxLen = 4000] (Telegram has a 4096 char limit) *)
Definition maxLen : nat := 4000.

(** [for (let i = 0; i < text.length; i += maxLen) { send(text.slice(i, i + maxLen)) }],
    started at index [i].  A refused send throws out of the loop.  [None]
    means the iteration bound [fuel] was too small. *)
Fixpoint sendChunks (fuel : nat) (chat : number) (text : string) (i : nat) (w : World)
  : option Completion :=
  match fuel with
  | O => None
  | S fuel' =>
      if (i <? String.length text)%nat then
        let chunk := slice text i (i + maxLen) in
        if telegramAccepts E chat chunk false
        then sendChunks fuel' chat text (i + maxLen) (deliver chat chunk false w)
        else Some (Thrown w)
      else Some (Normal w)
  end.

(** [sendTelegramMessage(chatId, text)]: the returned boolean and the state. *)
Definition sendTelegramMessage (chatId : number) (text : string) (w : World) : bool * World :=
  if negb (bot w) then (false, w)
  else if (String.length text <=? maxLen)%nat then
    if telegramAccepts E chatId text true then (true, deliver chatId text true w)
    else if telegramAccepts E chatId text false then (true, deliver chatId text false w)
    else (false, w)
  else
    match sendChunks (S (String.length text)) chatId text 0 w with
    | Some (Normal w') => (true, w')
    | Some (Thrown w') => (false, w')
    | None => (false, w)
    end.

(** [sendTelegramResponse(ctx, text)], with [ctx.reply] answering in [chat];
    here a refused reply propagates to the caller. *)
Definition sendTelegramResponse (chat : number) (text : string) (w : World) : Completion :=
  if (String.length text <=? maxLen)%nat then
    if telegramAccepts E chat text true then Normal (deliver chat text true w)
    else if telegramAccepts E chat text false then Normal (deliver chat text false w)
    else Thrown w
  else
    match sendChunks (S (String.length text)) chat text 0 w with
    | Some c => c
    | None => Thrown w
    end.

(** *** Pairing with admin approval *)

Definition isUserPaired (userId : number) (w : World) : bool :=
  bool_decide (is_Some (pairedUsers w !! userId)).

Definition hasPendingApproval (userId : number) (w : World) : bool :=
  bool_decide (is_Some (pendingApprovals w !! userId)).

Definition requestApproval (userId : number) (username firstName firstMessage : option string)
    (w : World) : World :=
  match pendingApprovals w !! userId with
  | Some _ => w
  | None =>
      set_pendingApprovals
        (<[userId := {| pa_userId := userId; pa_username := username;
                        pa_firstName := firstName; pa_requestedAt := now w;
                        pa_firstMessage := if truthy firstMessage
                                           then default "" firstMessage else "" |}]>
           (pendingApprovals w)) w
  end.

(** The notification of the affected user, when the bot is running; a
    refusal is swallowed by the [.catch] handler. *)
Definition notifyUser (userId : number) (text : string) (w : World) : World :=
  if bot w && telegramAccepts E userId text false then deliver userId text false w else w.

Definition approveUser (userId : number) (approvedBy : option string) (w : World) : bool * World :=
  let pending := pendingApprovals w in
  let pendingUser := pending !! userId in
  let users :=
    <[userId := {| pu_userId := userId;
                   pu_username := pendingUser ≫= pa_username;
                   pu_firstName := pendingUser ≫= pa_firstName;
                   pu_pairedAt := now w;
                   pu_approvedBy := approvedBy |}]> (pairedUsers w) in
  let w1 := set_pairedUsers users w in
  let w2 := match pending !! userId with
            | Some _ => set_pendingApprovals (delete userId pending) w1
            | None => w1
            end in
  (true, notifyUser userId "Access approved! You can now chat with me." w2).

Definition denyUser (userId : number) (w : World) : bool * World :=
  let pending := pendingApprovals w in
  match pending !! userId with
  | Some _ =>
      let w1 := set_pendingApprovals (delete userId pending) w in
      (true, notifyUser userId "Access denied." w1)
  | None => (false, w)
  end.

Definition unpairUser (userId : number) (w : World) : bool * World :=
  let users := pairedUsers w in
  match users !! userId with
  | Some _ => (true, set_pairedUsers (delete userId users) w)
  | None => (false, w)
  end.

(** The access check at the head of [handleMessage]
    ([if (userId && !isUserPaired(userId)) { ... }]), as far as the
    access-control store goes: the one call site of [requestApproval].  The
    boolean tells whether the message goes on to the agent.  The replies to
    the sender and the notice to the admin, which do not touch the store,
    are left out. *)
Definition handleMessage_pairing (userId : option Z) (username firstName : option string)
    (text : string) (w : World) : bool * World :=
  match userId with
  | Some u =>
      if negb (u =? 0)%Z && negb (isUserPaired (Num u) w) then
        if hasPendingApproval (Num u) w then (false, w)
        else (false, requestApproval (Num u) username firstName (Some text) w)
      else (true, w)
  | None => (true, w)
  end.

End Telegram.

(** ** [index.ts] *)

Section Host.

Context (E : Env).

(** [v === lit] for an optional string property *)
Definition same (v : option string) (lit : string) : bool :=
  match v with Some s => String.eqb s lit | None => false end.

(** [registeredGroups[jid] = group] on the object's own string keys, in
    insertion order. *)
Fixpoint objSet {V} (k : string) (v : V) (o : list (string * V)) : list (string * V) :=
  match o with
  | [] => [(k, v)]
  | (k', v') :: o' => if String.eqb k' k then (k, v) :: o' else (k', v') :: objSet k v o'
  end.

(** [registerGroup(jid, group)]: record the group and create its folder. *)
Definition registerGroup (jid : string) (group : RegisteredGroup) (w : World) : World :=
  set_groups (objSet jid group (registeredGroups w)) ({[g_folder group]} ∪ groupDirs w) w.

(** [Object.entries(registeredGroups).find(([, group]) => group.folder === targetGroup)?.[0]] *)
Definition findJid (targetGroup : string) (w : World) : option string :=
  fst <$> List.find (λ e, String.eqb (g_folder (snd e)) targetGroup) (registeredGroups w).

(** The schedule-kind-specific part of [schedule_task] (lines 183-206). *)
Inductive NextRun :=
| NextAt (nextRun : option Z)   (** validation passed; [nextRun] is the computed value *)
| Invalid                       (** logged and rejected: [break] *)
| RangeError                    (** [toISOString] threw on an invalid date *).

Definition initialNextRun (scheduleType scheduleValue : string) (now : Z) : NextRun :=
  if String.eqb scheduleType "cron" then
    match cronNext E now scheduleValue with
    | Some t => NextAt (Some t)
    | None => Invalid
    end
  else if String.eqb scheduleType "interval" then
    match parseInt scheduleValue with
    | NaN => Invalid
    | Num ms =>
        if (ms <=? 0)%Z then Invalid
        else match TimeClip (now + ms) with
             | Some t => NextAt (Some t)
             | None => RangeError
             end
    end
  else if String.eqb scheduleType "once" then
    match dateParse E scheduleValue ≫= TimeClip with
    | None => Invalid
    | Some t => NextAt (Some t)
    end
  else NextAt None.

Definition contextModeOf (context_mode : option string) : string :=
  if same context_mode "group" || same context_mode "isolated"
  then default "" context_mode
  else "isolated".

(** [Number(data.userId)] *)
Definition NumberOf (u : UserIdField) : number :=
  match u with
  | UidNumber z => Num z
  | UidString s => numberOfString E s
  end.

(** [if (data.userId)] *)
Definition truthyUserId (u : option UserIdField) : bool :=
  match u with
  | Some (UidNumber z) => negb (z =? 0)%Z
  | Some (UidString s) => negb (String.eqb s "")
  | None => false
  end.

(** [task && (isMain || task.group_folder === sourceGroup)] *)
Definition mayMutate (task : option ScheduledTask) (sourceGroup : string) (isMain : bool) : bool :=
  match task with
  | Some t => isMain || String.eqb (t_group_folder t) sourceGroup
  | None => false
  end.

Definition processTaskIpc (data : IpcData) (sourceGroup : string) (isMain : bool) (w : World)
  : Completion :=
  if same (d_type data) "schedule_task" then
    if truthy (d_prompt data) && truthy (d_schedule_type data)
       && truthy (d_schedule_value data) && truthy (d_groupFolder data) then
      let targetGroup := default "" (d_groupFolder data) in
      if negb isMain && negb (String.eqb targetGroup sourceGroup) then Normal w
      else
        let targetJid := if truthy (d_chatJid data) then d_chatJid data
                         else findJid targetGroup w in
        if negb (truthy targetJid) then Normal w
        else
          let scheduleType := default "" (d_schedule_type data) in
          let scheduleValue := default "" (d_schedule_value data) in
          match initialNextRun scheduleType scheduleValue (now w) with
          | Invalid => Normal w
          | RangeError => Thrown w
          | NextAt nextRun =>
              let taskId := "task-" +:+ showZ (now w) +:+ "-" +:+ randomSuffix E (draws w) in
              let w1 := set_draws (S (draws w)) w in
              let contextMode := contextModeOf (d_context_mode data) in
              createTask {| t_id := taskId;
                            t_group_folder := targetGroup;
                            t_chat_jid := default "" targetJid;
                            t_prompt := default "" (d_prompt data);
                            t_schedule_type := scheduleType;
                            t_schedule_value := scheduleValue;
                            t_context_mode := contextMode;
                            t_next_run := nextRun;
                            t_status := "active";
                            t_created_at := now w |} w1
          end
    else Normal w
  else if same (d_type data) "pause_task" then
    if truthy (d_taskId data) then
      let taskId := default "" (d_taskId data) in
      if mayMutate (getTaskById taskId w) sourceGroup isMain
      then Normal (updateTask taskId "paused" w)
      else Normal w
    else Normal w
  else if same (d_type data) "resume_task" then
    if truthy (d_taskId data) then
      let taskId := default "" (d_taskId data) in
      if mayMutate (getTaskById taskId w) sourceGroup isMain
      then Normal (updateTask taskId "active" w)
      else Normal w
    else Normal w
  else if same (d_type data) "cancel_task" then
    if truthy (d_taskId data) then
      let taskId := default "" (d_taskId data) in
      if mayMutate (getTaskById taskId w) sourceGroup isMain
      then Normal (deleteTask taskId w)
      else Normal w
    else Normal w
  else if same (d_type data) "register_group" then
    if negb isMain then Normal w
    else if truthy (d_jid data) && truthy (d_name data)
            && truthy (d_folder data) && truthy (d_trigger data) then
      Normal (registerGroup (default "" (d_jid data))
                {| g_name := default "" (d_name data);
                   g_folder := default "" (d_folder data);
                   g_trigger := default "" (d_trigger data);
                   g_added_at := now w;
                   g_containerConfig := d_containerConfig data |} w)
    else Normal w
  else if same (d_type data) "telegram_approve" then
    if negb isMain then Normal w
    else if truthyUserId (d_userId data) then
      match d_userId data with
      | Some u => Normal (snd (approveUser E (NumberOf u) (Some "main") w))
      | None => Normal w
      end
    else Normal w
  else if same (d_type data) "telegram_deny" then
    if negb isMain then Normal w
    else if truthyUserId (d_userId data) then
      match d_userId data with
      | Some u => Normal (snd (denyUser E (NumberOf u) w))
      | None => Normal w
      end
    else Normal w
  else if same (d_type data) "telegram_list_pending" then Normal w
  else Normal w.

(** The body of the message loop between [JSON.parse] and [unlinkSync]
    (lines 77-94). *)
Definition processMessageIpc (data : IpcData) (sourceGroup : string) (isMain : bool) (w : World)
  : Completion :=
  if same (d_type data) "message" && truthy (d_chatJid data) && truthy (d_text data) then
    let chatJid := default "" (d_chatJid data) in
    let text := default "" (d_text data) in
    if startsWith "tg:" chatJid then
      if isMain then
        let chatId := parseInt (replace "tg:" "" chatJid) in
        if negb (isNaN chatId)
        then Normal (snd (sendTelegramMessage E chatId (ASSISTANT_NAME E +:+ ": " +:+ text) w))
        else Normal w
      else Normal w
    else Normal w
  else Normal w.

(** *** The mailbox on disk *)

Definition entryPath (sourceGroup : string) (kind : MailboxKind) (file : string) : list string :=
  [sourceGroup; kindDir kind; file].

(** [path.join(errorDir, `${sourceGroup}-${file}`)] *)
Definition errorPath (sourceGroup file : string) : list string :=
  ["errors"; sourceGroup +:+ "-" +:+ file].

(** The name directly below [dir] on the way to [p], when [p] lies below [dir]. *)
Definition entryUnder (dir p : list string) : option string :=
  if bool_decide (take (length dir) p = dir) then p !! length dir else None.

(** [readdirSync(dir)] restricted to sub-directories. *)
Definition subdirs (dir : list string) (f : gmap (list string) string) : list string :=
  remove_dups
    (omap (λ p, if (length dir + 1 <? length p)%nat then entryUnder dir p else None)
          (map_to_list f).*1).

(** [readdirSync(dir)] restricted to regular files. *)
Definition files (dir : list string) (f : gmap (list string) string) : list string :=
  omap (λ p, if (length p =? length dir + 1)%nat then entryUnder dir p else None)
       (map_to_list f).*1.

(** [fs.readdirSync(ipcBaseDir).filter(f => stat(f).isDirectory() && f !== 'errors')] *)
Definition groupFolders (f : gmap (list string) string) : list string :=
  List.filter (λ d, negb (String.eqb d "errors")) (subdirs [] f).

(** [fs.readdirSync(dir).filter(f => f.endsWith('.json'))] *)
Definition jsonFiles (sourceGroup : string) (kind : MailboxKind) (f : gmap (list string) string)
  : list string :=
  List.filter (endsWith ".json") (files [sourceGroup; kindDir kind] f).

(** [fs.unlinkSync(filePath)]; [None] is the [ENOENT] error. *)
Definition unlinkSync (sourceGroup : string) (kind : MailboxKind) (file : string) (w : World)
  : option World :=
  match fs w !! entryPath sourceGroup kind file with
  | Some _ =>
      Some (emit (EvUnlink sourceGroup kind file)
              (set_fs (delete (entryPath sourceGroup kind file) (fs w)) w))
  | None => None
  end.

(** The [catch] block of an entry: [mkdirSync(errorDir)] and
    [renameSync(filePath, errors/<sourceGroup>-<file>)], which replaces a
    file already there; [None] is the [ENOENT] error of the rename. *)
Definition quarantine (sourceGroup : string) (kind : MailboxKind) (file : string) (w : World)
  : option World :=
  match fs w !! entryPath sourceGroup kind file with
  | Some body =>
      Some (emit (EvQuarantine sourceGroup kind file)
              (set_fs (<[errorPath sourceGroup file := body]>
                         (delete (entryPath sourceGroup kind file) (fs w))) w))
  | None => None
  end.

(** One iteration of a file loop ends by going on to the next file, or by an
    exception that leaves the loop (caught and logged by the enclosing [try]). *)
Inductive Step :=
| Continue (w : World)
| Abort (w : World).

Definition stepWorld (s : Step) : World :=
  match s with Continue w | Abort w => w end.

Definition catchEntry (sourceGroup : string) (kind : MailboxKind) (file : string) (w : World)
  : Step :=
  match quarantine sourceGroup kind file w with
  | Some w' => Continue w'
  | None => Abort w
  end.

Definition handleEntry (kind : MailboxKind) (data : IpcData) (sourceGroup : string)
    (isMain : bool) (w : World) : Completion :=
  match kind with
  | Messages => processMessageIpc data sourceGroup isMain w
  | Tasks => processTaskIpc data sourceGroup isMain w
  end.

(** The body of [for (const file of messageFiles)] / [for (const file of taskFiles)].
    Reading a property of [null] throws. *)
Definition processEntry (sourceGroup : string) (kind : MailboxKind) (isMain : bool)
    (file : string) (w : World) : Step :=
  let w0 := emit (EvElevation sourceGroup kind file isMain) w in
  match fs w0 !! entryPath sourceGroup kind file with
  | None => catchEntry sourceGroup kind file w0
  | Some body =>
      match JSON_parse E body with
      | SyntaxError => catchEntry sourceGroup kind file w0
      | JsonNull => catchEntry sourceGroup kind file w0
      | JsonObject data =>
          match handleEntry kind data sourceGroup isMain w0 with
          | Thrown w1 => catchEntry sourceGroup kind file w1
          | Normal w1 =>
              match unlinkSync sourceGroup kind file w1 with
              | Some w2 => Continue w2
              | None => catchEntry sourceGroup kind file w1
              end
          end
      end
  end.

Fixpoint drainFiles (sourceGroup : string) (kind : MailboxKind) (isMain : bool)
    (names : list string) (w : World) : World :=
  match names with
  | [] => w
  | file :: rest =>
      match processEntry sourceGroup kind isMain file w with
      | Continue w' => drainFiles sourceGroup kind isMain rest w'
      | Abort w' => w'
      end
  end.

Definition drainDir (sourceGroup : string) (kind : MailboxKind) (isMain : bool) (w : World)
  : World :=
  drainFiles sourceGroup kind isMain (jsonFiles sourceGroup kind (fs w)) w.

(** The body of [for (const sourceGroup of groupFolders)]. *)
Definition processGroup (sourceGroup : string) (w : World) : World :=
  let isMain := String.eqb sourceGroup (MAIN_GROUP_FOLDER E) in
  drainDir sourceGroup Tasks isMain (drainDir sourceGroup Messages isMain w).

(** One pass of [processIpcFiles]. *)
Definition processIpcFiles (w : World) : World :=
  foldl (λ w' sourceGroup, processGroup sourceGroup w') w (groupFolders (fs w)).

End Host.

(** ** Durable state *)

(** The task store, the tenant registry (with the group folders) and the
    access-control store. *)
Definition durable (w : World)
  : gmap string ScheduledTask * list (string * RegisteredGroup) * gset string
    * gmap number PairedUser * gmap number PendingApproval :=
  (tasks w, registeredGroups w, groupDirs w, pairedUsers w, pendingApprovals w).

(** A control request that reaches across tenants: [schedule_task] for
    another group, [register_group], [telegram_approve], [telegram_deny], or
    pause/resume/cancel of a task another group owns. *)
Definition targetsOtherTenant (data : IpcData) (sourceGroup : string) (w : World) : bool :=
  (same (d_type data) "schedule_task"
   && match d_groupFolder data with
      | Some g => negb (String.eqb g sourceGroup)
      | None => false
      end)
  || same (d_type data) "register_group"
  || same (d_type data) "telegram_approve"
  || same (d_type data) "telegram_deny"
  || ((same (d_type data) "pause_task" || same (d_type data) "resume_task"
       || same (d_type data) "cancel_task")
      && match d_taskId data with
         | Some id =>
             match getTaskById id w with
             | Some t => negb (String.eqb (t_group_folder t) sourceGroup)
             | None => false
             end
         | None => false
         end).

(** [w'] differs from [w] at most in the list of sent messages. *)
Definition onlySent (w w' : World) : Prop := w' = set_sent (sent w') w.

Section ScheduleTask.

Context (E : Env).

(** The guards of [schedule_task] ahead of the schedule-kind validation:
    the four fields are present, the request is authorized, and a
    destination is known. *)
Definition scheduleGuards (data : IpcData) (sourceGroup : string) (isMain : bool) (w : World)
  : bool :=
  same (d_type data) "schedule_task"
  && (truthy (d_prompt data) && truthy (d_schedule_type data)
      && truthy (d_schedule_value data) && truthy (d_groupFolder data))
  && negb (negb isMain && negb (String.eqb (default "" (d_groupFolder data)) sourceGroup))
  && truthy (if truthy (d_chatJid data) then d_chatJid data
             else findJid (default "" (d_groupFolder data)) w).

(** The row [schedule_task] builds. *)
Definition scheduledRow (data : IpcData) (nextRun : option Z) (w : World) : ScheduledTask :=
  {| t_id := "task-" +:+ showZ (now w) +:+ "-" +:+ randomSuffix E (draws w);
     t_group_folder := default "" (d_groupFolder data);
     t_chat_jid := default "" (if truthy (d_chatJid data) then d_chatJid data
                               else findJid (default "" (d_groupFolder data)) w);
     t_prompt := default "" (d_prompt data);
     t_schedule_type := default "" (d_schedule_type data);
     t_schedule_value := default "" (d_schedule_value data);
     t_context_mode := contextModeOf (d_context_mode data);
     t_next_run := nextRun;
     t_status := "active";
     t_created_at := now w |}.

End ScheduleTask.

(** ** Sequences of access-control operations *)




Section AccessOps.

Context (E : Env).





End AccessOps.

(** ** What a run of the drainer may do to the mailboxes *)

Definition eventEntry (e : Event) : string * MailboxKind * string :=
  match e with
  | EvElevation g k f _ | EvUnlink g k f | EvQuarantine g k f => (g, k, f)
  end.

(** An event as the drainer produces it: not about the errors directory, and
    with the elevation flag of the directory. *)
Definition eventOk (E : Env) (e : Event) : Prop :=
  (eventEntry e).1.1 ≠ "errors"
  ∧ match e with
    | EvElevation g _ _ b => b = String.eqb g (MAIN_GROUP_FOLDER E)
    | _ => True
    end.

(** [drains E w w'] relates the state before and after some iterations of the
    drainer.  Mailbox entries are the paths of three components.
    - the trace grows by [new];
    - no mailbox entry appears or changes its text;
    - no file elsewhere (the errors directory) disappears;
    - a mailbox entry that is gone was quarantined, or unlinked after its
      text had parsed;
    - the new events are about entries that were there at the start. *)
Definition drains (E : Env) (w w' : World) : Prop :=
  ∃ new : list Event,
    trace w' = trace w ++ new
    ∧ (∀ p b, length p = 3%nat → fs w' !! p = Some b → fs w !! p = Some b)
    ∧ (∀ p, length p ≠ 3%nat → is_Some (fs w !! p) → is_Some (fs w' !! p))
    ∧ (∀ p b, length p = 3%nat → fs w !! p = Some b →
         fs w' !! p = Some b
         ∨ ∃ g k f, p = entryPath g k f ∧ fs w' !! p = None
             ∧ (EvQuarantine g k f ∈ new
                ∨ (EvUnlink g k f ∈ new ∧ ∃ data, JSON_parse E b = JsonObject data)))
    ∧ (∀ e, e ∈ new →
         eventOk E e
         ∧ ∃ g k f, eventEntry e = (g, k, f) ∧ is_Some (fs w !! entryPath g k f)).

(** A destination the message loop accepts: ["tg:"] followed by a chat id
    that [parseInt] reads. *)
Definition wellFormedDestination (chatJid : string) : bool :=
  startsWith "tg:" chatJid && negb (isNaN (parseInt (replace "tg:" "" chatJid))).

(** ** A concrete host for examples *)

Module Sample.

Definition noData : IpcData :=
  {| d_type := None; d_taskId := None; d_prompt := None; d_schedule_type := None;
     d_schedule_value := None; d_context_mode := None; d_groupFolder := None;
     d_chatJid := None; d_text := None; d_jid := None; d_name := None;
     d_folder := None; d_trigger := None; d_containerConfig := None;
     d_userId := None |}.

Definition scheduleData (kind value : string) (groupFolder chatJid context_mode : option string)
  : IpcData :=
  {| d_type := Some "schedule_task"; d_taskId := None; d_prompt := Some "ping";
     d_schedule_type := Some kind; d_schedule_value := Some value;
     d_context_mode := context_mode; d_groupFolder := groupFolder;
     d_chatJid := chatJid; d_text := None; d_jid := None; d_name := None;
     d_folder := None; d_trigger := None; d_containerConfig := None;
     d_userId := None |}.

Definition taskOp (type taskId : string) : IpcData :=
  {| d_type := Some type; d_taskId := Some taskId; d_prompt := None;
     d_schedule_type := None; d_schedule_value := None; d_context_mode := None;
     d_groupFolder := None; d_chatJid := None; d_text := None; d_jid := None;
     d_name := None; d_folder := None; d_trigger := None; d_containerConfig := None;
     d_userId := None |}.

Definition userOp (type : string) (userId : Z) : IpcData :=
  {| d_type := Some type; d_taskId := None; d_prompt := None;
     d_schedule_type := None; d_schedule_value := None; d_context_mode := None;
     d_groupFolder := None; d_chatJid := None; d_text := None; d_jid := None;
     d_name := None; d_folder := None; d_trigger := None; d_containerConfig := None;
     d_userId := Some (UidNumber userId) |}.

Definition messageData (chatJid text : string) : IpcData :=
  {| d_type := Some "message"; d_taskId := None; d_prompt := None;
     d_schedule_type := None; d_schedule_value := None; d_context_mode := None;
     d_groupFolder := None; d_chatJid := Some chatJid; d_text := Some text;
     d_jid := None; d_name := None; d_folder := None; d_trigger := None;
     d_containerConfig := None; d_userId := None |}.

(** File texts the example parser knows; any other text is a syntax error. *)
Definition parseTable : list (string * Parsed) :=
  [ ("null", JsonNull);
    ("{type:telegram_approve,userId:7}", JsonObject (userOp "telegram_approve" 7));
    ("{type:telegram_deny,userId:7}", JsonObject (userOp "telegram_deny" 7));
    ("{type:cancel_task,taskId:t1}", JsonObject (taskOp "cancel_task" "t1"));
    ("{type:message,chatJid:tg:42,text:hello}", JsonObject (messageData "tg:42" "hello"));
    ("{type:schedule_task,once,groupFolder:main}",
       JsonObject (scheduleData "once" "2020-01-01T00:00:00Z" (Some "main") (Some "tg:42") None));
    ("{type:schedule_task,once}",
       JsonObject (scheduleData "once" "2020-01-01T00:00:00Z" None (Some "tg:42") None));
    ("{type:schedule_task,interval:9000000000000000,groupFolder:main}",
       JsonObject (scheduleData "interval" "9000000000000000" (Some "main") (Some "tg:42") None));
    ("7", JsonObject noData) ].

Definition parse (s : string) : Parsed :=
  match List.find (λ e, String.eqb (fst e) s) parseTable with
  | Some e => snd e
  | None => SyntaxError
  end.

Definition env : Env :=
  {| MAIN_GROUP_FOLDER := "main";
     ASSISTANT_NAME := "m87";
     JSON_parse := parse;
     cronNext := λ now v, if String.eqb v "0 9 * * 1" then Some (now + 60000)%Z else None;
     dateParse := λ s, if String.eqb s "2020-01-01T00:00:00Z" then Some 1577836800000%Z else None;
     numberOfString := λ s, if String.eqb s "7" then Num 7 else NaN;
     randomSuffix := λ n, "r" +:+ showZ (Z.of_nat n);
     telegramAccepts := λ _ _ _, true |}.

Definition world0 : World :=
  {| fs := ∅; tasks := ∅; registeredGroups := []; groupDirs := ∅;
     pairedUsers := ∅; pendingApprovals := ∅; bot := true; sent := [];
     now := 1700000000000; draws := 0; trace := [] |}.

Definition task1 : ScheduledTask :=
  {| t_id := "t1"; t_group_folder := "main"; t_chat_jid := "tg:42"; t_prompt := "ping";
     t_schedule_type := "interval"; t_schedule_value := "60000";
     t_context_mode := "isolated"; t_next_run := Some 1700000060000%Z;
     t_status := "active"; t_created_at := 1700000000000 |}.

End Sample.

(** * Further parts of the host *)

From Stdlib Require DecimalPos.

(** [pause_task], [resume_task] or [cancel_task] *)
Definition isTaskRequest (data : IpcData) : Prop :=
  d_type data = Some "pause_task" ∨ d_type data = Some "resume_task"
  ∨ d_type data = Some "cancel_task".

(** [o[k]] on the object's own string keys; [None] is [undefined]. *)
Fixpoint objGet {V} (k : string) (o : list (string * V)) : option V :=
  match o with
  | [] => None
  | (k', v) :: o' => if String.eqb k' k then Some v else objGet k o'
  end.


(** A mailbox entry the drainer picks up: a [.json] file in the [messages]
    or [tasks] directory of a directory other than [errors]. *)
Definition drainable (p : list string) : Prop :=
  ∃ g k f, p = entryPath g k f ∧ g ≠ "errors" ∧ endsWith ".json" f = true.


#[global] Instance ScheduledTask_eq_dec : EqDecision ScheduledTask.
Proof. solve_decision. Defined.

(** ** [telegram.ts]: chats and their folders *)

(** [`tg:${chatId}`], the key of a chat and the [chatJid] handed to the agent. *)
Definition chatKey (chatId : Z) : string := "tg:" +:+ showZ chatId.

(** [a || b] on optional strings *)
Definition orElse (a b : option string) : option string :=
  if truthy a then a else b.

(** Characters are 8-bit code units. *)
Definition isLowerAlnum (c : ascii) : bool :=
  let n := nat_of_ascii c in
  ((97 <=? n)%nat && (n <=? 122)%nat) || ((48 <=? n)%nat && (n <=? 57)%nat).

Definition lowerChar (c : ascii) : ascii :=
  let n := nat_of_ascii c in
  if ((65 <=? n)%nat && (n <=? 90)%nat) then ascii_of_nat (n + 32) else c.

(** [s.toLowerCase()] on the letters A-Z; the characters outside ASCII,
    whatever their case, are replaced by the step that follows it in
    [getGroupFolder]. *)
Fixpoint toLowerCase (s : string) : string :=
  match s with
  | EmptyString => EmptyString
  | String c s' => String (lowerChar c) (toLowerCase s')
  end.

(** [s.replace(/[^a-z0-9]+/g, '-')]; [inRun] tells that the characters just
    before belong to a run already replaced. *)
Fixpoint replaceNonAlnumRuns (inRun : bool) (s : string) : string :=
  match s with
  | EmptyString => EmptyString
  | String c s' =>
      if isLowerAlnum c then String c (replaceNonAlnumRuns false s')
      else if inRun then replaceNonAlnumRuns true s'
           else String "-" (replaceNonAlnumRuns true s')
  end.

Definition dropLeadingDash (s : string) : string :=
  match s with
  | String "-" s' => s'
  | _ => s
  end.

Fixpoint dropTrailingDash (s : string) : string :=
  match s with
  | EmptyString => EmptyString
  | String c EmptyString => if Ascii.eqb c "-" then EmptyString else s
  | String c s' => String c (dropTrailingDash s')
  end.

(** [s.replace(/^-|-$/g, '')] *)
Definition stripEdgeDashes (s : string) : string :=
  dropTrailingDash (dropLeadingDash s).

(** The sanitized folder name of a group chat:
    [(title || `telegram-group-${chatId}`).toLowerCase()
       .replace(/[^a-z0-9]+/g, '-').replace(/^-|-$/g, '').slice(0, 50)] *)
Definition safeName (title : option string) (chatId : Z) : string :=
  slice (stripEdgeDashes
           (replaceNonAlnumRuns false
              (toLowerCase (default "" (orElse title
                                          (Some ("telegram-group-" +:+ showZ chatId)))))))
        0 50.

(** [registered_telegram.json] and the folders below [GROUPS_DIR]. *)
Record ChatStore := {
  chats : list (string * RegisteredGroup);
  chatDirs : gset string
}.

Section TelegramChats.

Context (E : Env).

(** [TELEGRAM_CONFIG.unifiedMainChannel] *)
Context (unifiedMainChannel : bool).

Definition autoRegister (key displayName folder : string) (now : Z) (s : ChatStore)
  : ChatStore :=
  {| chats := objSet key {| g_name := displayName; g_folder := folder;
                            g_trigger := "@" +:+ ASSISTANT_NAME E;
                            g_added_at := now; g_containerConfig := None |} (chats s);
     chatDirs := {[folder]} ∪ chatDirs s |}.

(** [getGroupFolder(chatId, chatType, title, username)]: the folder and the
    store afterwards. *)
Definition getGroupFolder (now : Z) (chatId : Z) (chatType : string)
    (title username : option string) (s : ChatStore) : string * ChatStore :=
  let key := chatKey chatId in
  match objGet key (chats s) with
  | Some g => (g_folder g, s)
  | None =>
      if String.eqb chatType "private" then
        if unifiedMainChannel then (MAIN_GROUP_FOLDER E, s)
        else
          let folder := "telegram-private-" +:+ showZ chatId in
          let displayName :=
            default "" (orElse username
                          (orElse title (Some ("Telegram " +:+ showZ chatId)))) in
          (folder, autoRegister key displayName folder now s)
      else if String.eqb chatType "group" || String.eqb chatType "supergroup" then
        let folder := "telegram-" +:+ safeName title chatId in
        let displayName :=
          default "" (orElse title (Some ("Telegram Group " +:+ showZ chatId))) in
        (folder, autoRegister key displayName folder now s)
      else ("", s)
  end.

(** [registerTelegramChat(chatId, name, folder, trigger)] *)
Definition registerTelegramChat (now : Z) (chatId : Z) (name folder trigger : string)
    (s : ChatStore) : ChatStore :=
  {| chats := objSet (chatKey chatId)
                {| g_name := name; g_folder := folder; g_trigger := trigger;
                   g_added_at := now; g_containerConfig := None |} (chats s);
     chatDirs := {[folder]} ∪ chatDirs s |}.


End TelegramChats.

(** Every character of [s] satisfies [p]. *)
Fixpoint allChars (p : ascii → bool) (s : string) : bool :=
  match s with
  | EmptyString => true
  | String c s' => p c && allChars p s'
  end.

(** [a-z], [0-9] or [-] *)
Definition isFolderChar (c : ascii) : bool := isLowerAlnum c || Ascii.eqb c "-".

(** ** [modal-coder.ts]: the name of the working directory *)




(** ** Properties of [processTaskIpc] *)

Section HandlerFacts.

Context (E : Env).

Lemma same_Some (v : option string) (lit : string) :
  same v lit = true ↔ v = Some lit.
Proof.
  destruct v as [s|]; simpl; [|split; [discriminate|intros [=]]].
  rewrite String.eqb_eq. split; [by intros ->|by intros [= ->]].
Qed.

Lemma truthy_Some (v : option string) :
  truthy v = true → ∃ s, v = Some s ∧ s ≠ "".
Proof.
  destruct v as [s|]; simpl; [|discriminate].
  intros H. exists s. split; [done|]. intros ->. discriminate.
Qed.

(** A non-elevated request that reaches across tenants is a no-op of the handler. *)
Lemma processTaskIpc_cross_tenant (data : IpcData) (sourceGroup : string) (w : World) :
  targetsOtherTenant data sourceGroup w = true →
  processTaskIpc E data sourceGroup false w = Normal w.
Proof.
  unfold targetsOtherTenant, processTaskIpc, mayMutate, getTaskById.
  intros H.
  destruct (d_type data) as [ty|]; [|done]. simpl in *.
  repeat match goal with
         | |- context [String.eqb ty ?l] => destruct (String.eqb_spec ty l); subst; simpl in *
         end; try done.
  all: try (destruct (d_groupFolder data) as [g|]; simpl in *;
            [destruct (String.eqb g sourceGroup); simpl in *; try done;
             by repeat case_match|by rewrite !andb_false_r]).
  all: destruct (d_taskId data) as [id|]; simpl in *; try done;
       destruct (tasks w !! id) as [t|]; simpl in *; try done;
       destruct (String.eqb (t_group_folder t) sourceGroup); simpl in *; try done;
       by repeat case_match.
Qed.


(** *** What the Telegram functions leave alone *)

Lemma onlySent_refl (w : World) : onlySent w w.
Proof. by destruct w. Qed.

Lemma onlySent_trans (w1 w2 w3 : World) : onlySent w1 w2 → onlySent w2 w3 → onlySent w1 w3.
Proof. unfold onlySent. intros -> ->. by destruct w1. Qed.

Lemma onlySent_deliver (chat : number) (text : string) (md : bool) (w : World) :
  onlySent w (deliver chat text md w).
Proof. by destruct w. Qed.

Lemma sendChunks_onlySent (fuel : nat) (chat : number) (text : string) (i : nat)
    (w : World) (c : Completion) :
  sendChunks E fuel chat text i w = Some c → onlySent w (worldOf c).
Proof.
  revert i w. induction fuel as [|fuel IH]; intros i w; simpl; [done|].
  destruct (i <? String.length text)%nat.
  - destruct (telegramAccepts E chat _ false).
    + intros H. apply IH in H. eapply onlySent_trans; [apply onlySent_deliver|done].
    + intros [= <-]. apply onlySent_refl.
  - intros [= <-]. apply onlySent_refl.
Qed.

Lemma sendTelegramMessage_onlySent (chatId : number) (text : string) (w : World) :
  onlySent w (snd (sendTelegramMessage E chatId text w)).
Proof.
  unfold sendTelegramMessage.
  destruct (bot w); cbn [negb]; [|apply onlySent_refl].
  destruct (String.length text <=? maxLen)%nat.
  - repeat case_match; simpl; auto using onlySent_refl, onlySent_deliver.
  - destruct (sendChunks E (S (String.length text)) chatId text 0 w) as [c|] eqn:Hc;
      [|apply onlySent_refl].
    apply sendChunks_onlySent in Hc. by destruct c.
Qed.

Lemma notifyUser_onlySent (userId : number) (text : string) (w : World) :
  onlySent w (notifyUser E userId text w).
Proof.
  unfold notifyUser. case_match; auto using onlySent_refl, onlySent_deliver.
Qed.

(** The handlers never touch the mailbox files or the trace. *)
Lemma approveUser_files (userId : number) (approvedBy : option string) (w : World) :
  let w' := snd (approveUser E userId approvedBy w) in
  fs w' = fs w ∧ trace w' = trace w ∧ tasks w' = tasks w
  ∧ registeredGroups w' = registeredGroups w ∧ groupDirs w' = groupDirs w.
Proof.
  unfold approveUser. simpl.
  match goal with |- context [notifyUser E ?u ?t ?x] =>
    pose proof (notifyUser_onlySent u t x) as Hn; rewrite Hn end.
  by case_match.
Qed.

Lemma denyUser_files (userId : number) (w : World) :
  let w' := snd (denyUser E userId w) in
  fs w' = fs w ∧ trace w' = trace w ∧ tasks w' = tasks w
  ∧ registeredGroups w' = registeredGroups w ∧ groupDirs w' = groupDirs w.
Proof.
  unfold denyUser. simpl. case_match; simpl; [|done].
  match goal with |- context [notifyUser E ?u ?t ?x] =>
    pose proof (notifyUser_onlySent u t x) as Hn; rewrite Hn end.
  done.
Qed.

Lemma createTask_files (t : ScheduledTask) (w : World) :
  fs (worldOf (createTask t w)) = fs w ∧ trace (worldOf (createTask t w)) = trace w.
Proof. unfold createTask. by case_match. Qed.

Lemma processTaskIpc_files (data : IpcData) (sourceGroup : string) (isMain : bool) (w : World) :
  fs (worldOf (processTaskIpc E data sourceGroup isMain w)) = fs w
  ∧ trace (worldOf (processTaskIpc E data sourceGroup isMain w)) = trace w.
Proof.
  unfold processTaskIpc.
  repeat case_match; cbn [worldOf]; try done.
  all: first
    [ match goal with |- context [createTask ?t ?x] => apply (createTask_files t x) end
    | match goal with |- context [approveUser E ?u ?a ?x] =>
        by destruct (approveUser_files u a x) as (?&?&_) end
    | match goal with |- context [denyUser E ?u ?x] =>
        by destruct (denyUser_files u x) as (?&?&_) end ].
Qed.

Lemma processMessageIpc_onlySent (data : IpcData) (sourceGroup : string) (isMain : bool)
    (w : World) :
  ∃ w', processMessageIpc E data sourceGroup isMain w = Normal w' ∧ onlySent w w'.
Proof.
  unfold processMessageIpc.
  repeat case_match; eauto using onlySent_refl, sendTelegramMessage_onlySent.
Qed.

Lemma handleEntry_files (kind : MailboxKind) (data : IpcData) (sourceGroup : string)
    (isMain : bool) (w : World) :
  fs (worldOf (handleEntry E kind data sourceGroup isMain w)) = fs w
  ∧ trace (worldOf (handleEntry E kind data sourceGroup isMain w)) = trace w.
Proof.
  destruct kind; simpl; [|apply processTaskIpc_files].
  destruct (processMessageIpc_onlySent data sourceGroup isMain w) as (w'&->&H).
  simpl. by rewrite H.
Qed.

End HandlerFacts.

(** ** One iteration of a file loop *)

Section EntryFacts.

Context (E : Env).

Lemma fs_emit (e : Event) (w : World) : fs (emit e w) = fs w.
Proof. done. Qed.

(** What the loop body does to an entry that is on disk. *)
Lemma processEntry_present (sourceGroup : string) (kind : MailboxKind) (isMain : bool)
    (file body : string) (w : World) :
  fs w !! entryPath sourceGroup kind file = Some body →
  let w0 := emit (EvElevation sourceGroup kind file isMain) w in
  let moved (w1 : World) :=
    Continue (emit (EvQuarantine sourceGroup kind file)
                (set_fs (<[errorPath sourceGroup file := body]>
                           (delete (entryPath sourceGroup kind file) (fs w))) w1)) in
  processEntry E sourceGroup kind isMain file w =
    match JSON_parse E body with
    | JsonObject data =>
        match handleEntry E kind data sourceGroup isMain w0 with
        | Normal w1 =>
            Continue (emit (EvUnlink sourceGroup kind file)
                        (set_fs (delete (entryPath sourceGroup kind file) (fs w)) w1))
        | Thrown w1 => moved w1
        end
    | _ => moved w0
    end.
Proof.
  intros Hbody w0 moved. unfold processEntry. fold w0.
  assert (Hw0 : fs w0 !! entryPath sourceGroup kind file = Some body) by done.
  rewrite Hw0.
  destruct (JSON_parse E body) as [| |data].
  - unfold catchEntry, quarantine. by rewrite Hw0.
  - unfold catchEntry, quarantine. by rewrite Hw0.
  - destruct (handleEntry_files E kind data sourceGroup isMain w0) as [Hfs _].
    destruct (handleEntry E kind data sourceGroup isMain w0) as [w1|w1]; simpl in Hfs.
    + unfold unlinkSync. rewrite Hfs, Hbody. done.
    + unfold catchEntry, quarantine. rewrite Hfs, Hbody. done.
Qed.

End EntryFacts.

(** ** Control requests *)

Section ControlRequests.

Context (E : Env).

(** [schedule_task] without a (truthy) [groupFolder] is skipped whole. *)
Lemma schedule_task_needs_groupFolder (data : IpcData) (sourceGroup : string) (isMain : bool)
    (w : World) :
  same (d_type data) "schedule_task" = true →
  truthy (d_groupFolder data) = false →
  processTaskIpc E data sourceGroup isMain w = Normal w.
Proof.
  intros Hty Hg. unfold processTaskIpc. rewrite Hty, Hg.
  by rewrite andb_false_r.
Qed.

(** [schedule_task] in one equation. *)
Lemma processTaskIpc_schedule_task (data : IpcData) (sourceGroup : string) (isMain : bool)
    (w : World) :
  same (d_type data) "schedule_task" = true →
  processTaskIpc E data sourceGroup isMain w =
    if scheduleGuards data sourceGroup isMain w then
      match initialNextRun E (default "" (d_schedule_type data))
                           (default "" (d_schedule_value data)) (now w) with
      | NextAt nextRun => createTask (scheduledRow E data nextRun w) (set_draws (S (draws w)) w)
      | Invalid => Normal w
      | RangeError => Thrown w
      end
    else Normal w.
Proof.
  intros Hty. unfold processTaskIpc, scheduleGuards, scheduledRow. rewrite Hty.
  cbn [andb].
  destruct (truthy (d_prompt data) && truthy (d_schedule_type data)
            && truthy (d_schedule_value data) && truthy (d_groupFolder data)); [|done].
  cbn [andb].
  destruct (negb isMain && negb (String.eqb (default "" (d_groupFolder data)) sourceGroup));
    [done|].
  cbn [andb negb].
  by destruct (truthy (if truthy (d_chatJid data) then d_chatJid data
                       else findJid (default "" (d_groupFolder data)) w)).
Qed.

(** An invalid schedule value creates no task: the request is dropped. *)
Lemma schedule_task_invalid_value (data : IpcData) (sourceGroup : string) (isMain : bool)
    (w : World) :
  same (d_type data) "schedule_task" = true →
  initialNextRun E (default "" (d_schedule_type data))
                 (default "" (d_schedule_value data)) (now w) = Invalid →
  processTaskIpc E data sourceGroup isMain w = Normal w.
Proof.
  intros Hty Hinv. rewrite processTaskIpc_schedule_task by done.
  rewrite Hinv. by case_match.
Qed.

(** A request that passes the guards and the validation inserts exactly
    the row [scheduledRow], when its generated id is not yet taken. *)
Lemma schedule_task_valid_value (data : IpcData) (sourceGroup : string) (isMain : bool)
    (w : World) (nextRun : option Z) :
  scheduleGuards data sourceGroup isMain w = true →
  initialNextRun E (default "" (d_schedule_type data))
                 (default "" (d_schedule_value data)) (now w) = NextAt nextRun →
  tasks w !! t_id (scheduledRow E data nextRun w) = None →
  ∃ w', processTaskIpc E data sourceGroup isMain w = Normal w'
        ∧ tasks w' = <[t_id (scheduledRow E data nextRun w) := scheduledRow E data nextRun w]> (tasks w)
        ∧ size (tasks w') = S (size (tasks w)).
Proof.
  intros Hg Hnext Hfresh.
  assert (Hty : same (d_type data) "schedule_task" = true).
  { unfold scheduleGuards in Hg. by repeat (apply andb_prop in Hg as [Hg _]). }
  rewrite processTaskIpc_schedule_task by done. rewrite Hg, Hnext.
  unfold createTask. cbn [tasks set_draws]. rewrite Hfresh.
  eexists. split; [done|]. split; [done|].
  cbn [tasks set_tasks]. by apply map_size_insert_None.
Qed.

(** For the three schedule kinds a passed validation yields a next-fire time. *)
Lemma initialNextRun_known_kind (kind value : string) (t0 : Z) (nextRun : option Z) :
  kind = "cron" ∨ kind = "interval" ∨ kind = "once" →
  initialNextRun E kind value t0 = NextAt nextRun → is_Some nextRun.
Proof.
  unfold initialNextRun. intros [-> | [-> | ->]]; cbn [String.eqb Ascii.eqb Bool.eqb andb].
  all: repeat case_match; try discriminate; by intros [= <-].
Qed.

End ControlRequests.

Section NewRows.

Context (E : Env).

(** Only [schedule_task] adds rows to the task table, and the row it adds is
    [scheduledRow]. *)
Lemma processTaskIpc_new_row (data : IpcData) (sourceGroup : string) (isMain : bool)
    (w : World) (id : string) (t : ScheduledTask) :
  tasks w !! id = None →
  tasks (worldOf (processTaskIpc E data sourceGroup isMain w)) !! id = Some t →
  scheduleGuards data sourceGroup isMain w = true
  ∧ ∃ nextRun,
      initialNextRun E (default "" (d_schedule_type data))
                     (default "" (d_schedule_value data)) (now w) = NextAt nextRun
      ∧ t = scheduledRow E data nextRun w.
Proof.
  intros Hnone.
  destruct (same (d_type data) "schedule_task") eqn:Hty.
  - rewrite processTaskIpc_schedule_task by done.
    destruct (scheduleGuards data sourceGroup isMain w); [|simpl; congruence].
    destruct (initialNextRun E _ _ (now w)) as [nextRun| |]; [|simpl; congruence..].
    unfold createTask. cbn [tasks set_draws].
    destruct (tasks w !! t_id (scheduledRow E data nextRun w)) eqn:Hrow;
      [simpl; congruence|].
    cbn [worldOf tasks set_tasks]. rewrite lookup_insert.
    case_decide as Hid; [|congruence].
    intros [= <-]. eauto.
  - unfold processTaskIpc. rewrite Hty.
    repeat case_match; cbn [worldOf]; try congruence.
    all: first
      [ unfold updateTask; cbn [tasks set_tasks]; rewrite lookup_alter;
        case_decide; [subst; rewrite Hnone; discriminate|congruence]
      | unfold deleteTask; cbn [tasks set_tasks]; rewrite lookup_delete;
        case_decide; congruence
      | unfold registerGroup; cbn [tasks set_groups]; congruence
      | match goal with |- context [approveUser E ?u ?a ?x] =>
          destruct (approveUser_files E u a x) as (_&_&->&_); congruence end
      | match goal with |- context [denyUser E ?u ?x] =>
          destruct (denyUser_files E u x) as (_&_&->&_); congruence end ].
Qed.

Lemma contextModeOf_cases (context_mode : option string) :
  (context_mode = Some "group" ∧ contextModeOf context_mode = "group")
  ∨ (context_mode ≠ Some "group" ∧ contextModeOf context_mode = "isolated").
Proof.
  unfold contextModeOf.
  destruct (same context_mode "group") eqn:Hg.
  - apply same_Some in Hg as ->. by left.
  - right. split.
    + intros ->. discriminate.
    + cbn [orb]. destruct (same context_mode "isolated") eqn:Hi; [|done].
      by apply same_Some in Hi as ->.
Qed.

End NewRows.

(** ** The claims about control requests *)

(** C1.  A control request found in the task mailbox of a tenant other than
    the elevated one, and reaching across tenants ([schedule_task] for
    another group, [register_group], [telegram_approve], [telegram_deny], or
    pause/resume/cancel of a task another group owns), is rejected by the
    handler, which returns the state as it got it; after the loop body has
    disposed of the file, the task store, the tenant registry and the
    access-control store are what they were. *)
Theorem cross_tenant_request_leaves_durable_state (E : Env) (sourceGroup file body : string)
    (data : IpcData) (w : World) :
  sourceGroup ≠ MAIN_GROUP_FOLDER E →
  fs w !! entryPath sourceGroup Tasks file = Some body →
  JSON_parse E body = JsonObject data →
  targetsOtherTenant data sourceGroup w = true →
  let isMain := String.eqb sourceGroup (MAIN_GROUP_FOLDER E) in
  isMain = false
  ∧ processTaskIpc E data sourceGroup isMain w = Normal w
  ∧ durable (stepWorld (processEntry E sourceGroup Tasks isMain file w)) = durable w.
Proof.
  intros Hsrc Hbody Hparse Hcross isMain.
  assert (HisMain : isMain = false) by (by apply String.eqb_neq).
  rewrite HisMain. split; [done|]. split.
  - by apply processTaskIpc_cross_tenant.
  - rewrite (processEntry_present E _ _ _ _ body) by done.
    rewrite Hparse. cbn [handleEntry].
    rewrite processTaskIpc_cross_tenant by done. done.
Qed.

Lemma cross_tenant_request_leaves_durable_state_witness :
  let w := set_tasks {["t1" := Sample.task1]}
             (set_fs {[ ["family"; "tasks"; "c.json"] := "{type:cancel_task,taskId:t1}" ]}
                Sample.world0) in
  durable (stepWorld (processEntry Sample.env "family" Tasks
                        (String.eqb "family" "main") "c.json" w)) = durable w.
Proof.
  intros w.
  apply (cross_tenant_request_leaves_durable_state Sample.env "family" "c.json"
           "{type:cancel_task,taskId:t1}" (Sample.taskOp "cancel_task" "t1") w).
  - discriminate.
  - vm_compute. reflexivity.
  - vm_compute. reflexivity.
  - vm_compute. reflexivity.
Defined.

(** C4, as the claim has it, fails: a [schedule_task] request with a prompt,
    the kind [once], a timestamp that parses, and no [groupFolder], put into
    the elevated tenant's own mailbox, creates no task at all. *)
Lemma schedule_task_without_groupFolder_counterexample :
  let data := Sample.scheduleData "once" "2020-01-01T00:00:00Z" None (Some "tg:42") None in
  d_groupFolder data = None
  ∧ truthy (d_prompt data) = true
  ∧ initialNextRun Sample.env "once" "2020-01-01T00:00:00Z" (now Sample.world0)
    = NextAt (Some 1577836800000%Z)
  ∧ ¬ ∃ id t, tasks (worldOf (processTaskIpc Sample.env data "main" true Sample.world0))
                !! id = Some t.
Proof.
  repeat split; try (vm_compute; reflexivity).
  intros (id & t & H).
  rewrite schedule_task_needs_groupFolder in H by reflexivity.
  simpl in H. by rewrite lookup_empty in H.
Qed.

(** C4, amended.  A [schedule_task] request whose [groupFolder] is absent
    (or empty) is ignored, whatever tenant it comes from: the handler
    returns normally with the state unchanged, so no task is created and
    nothing defaults to the source tenant. *)
Theorem schedule_task_without_groupFolder_ignored (E : Env) (data : IpcData)
    (sourceGroup : string) (isMain : bool) (w : World) :
  d_type data = Some "schedule_task" →
  truthy (d_groupFolder data) = false →
  processTaskIpc E data sourceGroup isMain w = Normal w
  ∧ tasks (worldOf (processTaskIpc E data sourceGroup isMain w)) = tasks w.
Proof.
  intros Hty Hg.
  rewrite schedule_task_needs_groupFolder; [done| |done].
  by apply same_Some.
Qed.

Lemma schedule_task_without_groupFolder_ignored_witness :
  processTaskIpc Sample.env
    (Sample.scheduleData "once" "2020-01-01T00:00:00Z" None (Some "tg:42") None)
    "family" false Sample.world0 = Normal Sample.world0.
Proof.
  apply (schedule_task_without_groupFolder_ignored Sample.env
           (Sample.scheduleData "once" "2020-01-01T00:00:00Z" None (Some "tg:42") None)
           "family" false Sample.world0); reflexivity.
Defined.

(** C5, at the input where the code departs from it.  The interval
    ["9000000000000000"] parses as a positive integer, so the validation
    passes; [new Date(Date.now() + ms)] is then outside the range of dates,
    [toISOString] throws, and the handler leaves by the exception without a
    task; the loop body moves the file to the errors directory. *)
Theorem schedule_task_interval_out_of_range_throws :
  let data := Sample.scheduleData "interval" "9000000000000000" (Some "main")
                (Some "tg:42") None in
  let body := "{type:schedule_task,interval:9000000000000000,groupFolder:main}" in
  let w := set_fs {[ ["main"; "tasks"; "s.json"] := body ]} Sample.world0 in
  parseInt "9000000000000000" = Num 9000000000000000
  ∧ scheduleGuards data "main" true w = true
  ∧ processTaskIpc Sample.env data "main" true w = Thrown w
  ∧ tasks (stepWorld (processEntry Sample.env "main" Tasks true "s.json" w)) = ∅
  ∧ fs (stepWorld (processEntry Sample.env "main" Tasks true "s.json" w))
    = {[ ["errors"; "main-s.json"] := body ]}.
Proof.
  repeat split; vm_compute; reflexivity.
Qed.

(** A [once] timestamp in the past is accepted: one active task, due at
    that timestamp. *)
Example schedule_task_once_in_the_past :
  let data := Sample.scheduleData "once" "2020-01-01T00:00:00Z" (Some "main")
                (Some "tg:42") None in
  let w' := worldOf (processTaskIpc Sample.env data "main" true Sample.world0) in
  (1577836800000 < now Sample.world0)%Z
  ∧ size (tasks w') = 1%nat
  ∧ (λ t, (t_status t, t_next_run t)) <$> (tasks w' !! "task-1700000000000-r0")
    = Some ("active", Some 1577836800000%Z).
Proof. repeat split; vm_compute; reflexivity. Qed.

(** A schedule kind outside cron/interval/once is not validated either: the
    task is stored with no next-fire time. *)
Example schedule_task_unknown_kind :
  let data := Sample.scheduleData "weekly" "x" (Some "main") (Some "tg:42") None in
  ∃ w', processTaskIpc Sample.env data "main" true Sample.world0 = Normal w'
        ∧ t_next_run <$> (tasks w' !! "task-1700000000000-r0") = Some None.
Proof. eexists. split; [reflexivity|]. vm_compute. reflexivity. Qed.

(** C9.  A row that the handler adds to the task table has the context mode
    ["group"] or ["isolated"] -- the requested one when it is ["group"],
    and ["isolated"] for any other request, absent and unrecognized values
    included --, the status ["active"], and the creation time of the call. *)
Theorem created_task_row_shape (E : Env) (data : IpcData) (sourceGroup : string)
    (isMain : bool) (w : World) (id : string) (t : ScheduledTask) :
  tasks w !! id = None →
  tasks (worldOf (processTaskIpc E data sourceGroup isMain w)) !! id = Some t →
  d_type data = Some "schedule_task"
  ∧ (t_context_mode t = "group" ∨ t_context_mode t = "isolated")
  ∧ (d_context_mode data = Some "group" → t_context_mode t = "group")
  ∧ (d_context_mode data ≠ Some "group" → t_context_mode t = "isolated")
  ∧ t_status t = "active"
  ∧ t_created_at t = now w.
Proof.
  intros Hnone Hsome.
  destruct (processTaskIpc_new_row E data sourceGroup isMain w id t Hnone Hsome)
    as (Hg & nextRun & _ & ->).
  split.
  { apply same_Some. unfold scheduleGuards in Hg.
    by repeat (apply andb_prop in Hg as [Hg _]). }
  cbn [scheduledRow t_context_mode t_status t_created_at].
  destruct (contextModeOf_cases (d_context_mode data)) as [[Hm ->]|[Hm ->]];
    repeat split; auto; congruence.
Qed.

Lemma created_task_row_shape_witness :
  let data := Sample.scheduleData "once" "2020-01-01T00:00:00Z" (Some "main")
                (Some "tg:42") (Some "shared") in
  let t := scheduledRow Sample.env data (Some 1577836800000%Z) Sample.world0 in
  t_context_mode t = "isolated" ∧ t_status t = "active".
Proof.
  intros data t.
  destruct (created_task_row_shape Sample.env data "main" true Sample.world0 (t_id t) t)
    as (_ & _ & _ & Hmode & Hstatus & _).
  - vm_compute. reflexivity.
  - vm_compute. reflexivity.
  - split; [apply Hmode; discriminate | exact Hstatus].
Defined.

(** ** The pairing store *)

Section Pairing.

Context (E : Env).

Lemma notifyUser_stores (userId : number) (text : string) (w : World) :
  pairedUsers (notifyUser E userId text w) = pairedUsers w
  ∧ pendingApprovals (notifyUser E userId text w) = pendingApprovals w.
Proof. by rewrite (notifyUser_onlySent E userId text w). Qed.

(** Approval pairs the user and clears the pending record; other users keep
    what they had. *)
Lemma approveUser_stores (userId : number) (approvedBy : option string) (w : World) :
  let w' := snd (approveUser E userId approvedBy w) in
  is_Some (pairedUsers w' !! userId)
  ∧ pendingApprovals w' !! userId = None
  ∧ (∀ u, u ≠ userId →
       pairedUsers w' !! u = pairedUsers w !! u
       ∧ pendingApprovals w' !! u = pendingApprovals w !! u).
Proof.
  unfold approveUser. cbn [snd].
  match goal with |- context [notifyUser E ?u ?t ?x] =>
    destruct (notifyUser_stores u t x) as [-> ->] end.
  destruct (pendingApprovals w !! userId) eqn:Hp; cbn.
  - rewrite lookup_insert_eq, lookup_delete_eq.
    split; [by eexists|]. split; [done|]. intros u Hu.
    by rewrite lookup_insert_ne, lookup_delete_ne.
  - rewrite lookup_insert_eq.
    split; [by eexists|]. split; [done|]. intros u Hu.
    by rewrite lookup_insert_ne.
Qed.


Lemma requestApproval_stores (userId : number) (username firstName firstMessage : option string)
    (w : World) :
  let w' := requestApproval userId username firstName firstMessage w in
  pairedUsers w' = pairedUsers w
  ∧ is_Some (pendingApprovals w' !! userId)
  ∧ (∀ u, u ≠ userId → pendingApprovals w' !! u = pendingApprovals w !! u).
Proof.
  unfold requestApproval.
  destruct (pendingApprovals w !! userId) eqn:Hp; cbn.
  - repeat split. by rewrite Hp.
  - rewrite lookup_insert_eq. repeat split; [by eexists|].
    intros u Hu. by rewrite lookup_insert_ne.
Qed.



End Pairing.




(** ** Splitting a long text *)

Section Substring.

Lemma append_nil_l (s : string) : "" +:+ s = s.
Proof. reflexivity. Qed.

Lemma append_cons (c : ascii) (s t : string) : String c s +:+ t = String c (s +:+ t).
Proof. reflexivity. Qed.

Lemma substring_nil (n m : nat) : String.substring n m "" = "".
Proof. by destruct n, m. Qed.

Lemma substring_app (s : string) (i a b : nat) :
  String.substring i a s +:+ String.substring (i + a) b s = String.substring i (a + b) s.
Proof.
  revert i a b. induction s as [|c s IH]; intros i a b.
  - by rewrite !substring_nil.
  - destruct i as [|i]; cbn [Nat.add].
    + destruct a as [|a]; cbn [Nat.add String.substring].
      * by rewrite append_nil_l.
      * rewrite append_cons. f_equal. apply (IH 0%nat).
    + cbn [String.substring]. apply IH.
Qed.

Lemma substring_clip (s : string) (i a : nat) :
  (String.length s - i ≤ a)%nat →
  String.substring i a s = String.substring i (String.length s - i) s.
Proof.
  revert i a. induction s as [|c s IH]; intros i a Hle.
  - by rewrite !substring_nil.
  - destruct i as [|i]; cbn [String.length Nat.sub] in *.
    + destruct a as [|a]; [lia|]. cbn [String.substring]. f_equal.
      rewrite (IH 0%nat a) by lia. by rewrite Nat.sub_0_r.
    + cbn [String.substring]. by apply IH.
Qed.

Lemma substring_all (s : string) : String.substring 0 (String.length s) s = s.
Proof. induction s as [|c s IH]; [done|]. cbn. by rewrite IH. Qed.

Lemma substring_length_le (s : string) (i a : nat) :
  (String.length (String.substring i a s) ≤ a)%nat.
Proof.
  revert i a. induction s as [|c s IH]; intros i a.
  - rewrite substring_nil. cbn. lia.
  - destruct i as [|i]; cbn [String.substring]; [|apply IH].
    destruct a as [|a]; cbn [String.length]; [lia|]. specialize (IH 0%nat a). lia.
Qed.

(** The text from index [i] on. *)
Lemma slice_then_rest (text : string) (i n : nat) :
  (i < String.length text)%nat →
  slice text i (i + n) +:+ String.substring (i + n) (String.length text - (i + n)) text
  = String.substring i (String.length text - i) text.
Proof.
  intros Hi. unfold slice. replace (i + n - i)%nat with n by lia.
  rewrite substring_app.
  destruct (decide (i + n ≤ String.length text)%nat) as [Hle|Hgt].
  - f_equal. lia.
  - replace (String.length text - (i + n))%nat with 0%nat by lia.
    rewrite Nat.add_0_r. apply substring_clip. lia.
Qed.

End Substring.

Section Splitter.

Context (E : Env).

Lemma maxLen_pos : (0 < maxLen)%nat.
Proof. unfold maxLen. lia. Qed.

#[local] Opaque maxLen.

(** With enough iterations and a willing API the loop runs to its end, and
    sends the slices of the text from index [i] on, in order. *)
Lemma sendChunks_all_accepted (fuel : nat) (chat : number) (text : string) (i : nat)
    (w : World) :
  (∀ c, telegramAccepts E chat c false = true) →
  (1 ≤ fuel)%nat →
  ((i < String.length text)%nat → (String.length text < fuel + i)%nat) →
  ∃ new : list TelegramSend,
    sendChunks E fuel chat text i w = Some (Normal (set_sent (sent w ++ new) w))
    ∧ Forall (λ s, ts_chat s = chat ∧ (String.length (ts_text s) ≤ maxLen)%nat) new
    ∧ foldr String.append "" (ts_text <$> new)
      = String.substring i (String.length text - i) text
    ∧ (∀ k p, (ts_text <$> new) !! k = Some p →
              p = slice text (i + k * maxLen) (i + k * maxLen + maxLen)).
Proof.
  intros Hacc. pose proof maxLen_pos as Hpos.
  revert i w. induction fuel as [|fuel IH]; intros i w Hfuel Hbound; [lia|].
  cbn [sendChunks].
  destruct (Nat.ltb_spec i (String.length text)) as [Hi|Hi].
  - rewrite Hacc.
    destruct (IH (i + maxLen)%nat (deliver chat (slice text i (i + maxLen)) false w))
      as (new & Hrun & Hall & Hcat & Hidx); [lia|lia|].
    exists ({| ts_chat := chat; ts_text := slice text i (i + maxLen); ts_markdown := false |}
            :: new).
    split; [|split; [|split]].
    + rewrite Hrun. do 2 f_equal. destruct w; cbn. by rewrite <- app_assoc.
    + constructor; [|done]. split; [done|]. cbn [ts_text]. unfold slice.
      replace (i + maxLen - i)%nat with maxLen by lia. apply substring_length_le.
    + rewrite fmap_cons. cbn [foldr ts_text].
      rewrite Hcat. by apply slice_then_rest.
    + intros [|k] p; cbn.
      * intros [= <-]. by rewrite Nat.add_0_r.
      * intros Hk. apply Hidx in Hk as ->. f_equal; lia.
  - exists []. split; [|split; [|split]].
    + do 2 f_equal. destruct w; cbn. by rewrite app_nil_r.
    + constructor.
    + cbn. replace (String.length text - i)%nat with 0%nat by lia.
      pose proof (substring_length_le text i 0) as Hlen.
      destruct (String.substring i 0 text); [done|]. cbn in Hlen. lia.
    + intros k p. rewrite fmap_nil. by destruct k.
Qed.

End Splitter.

Lemma append_nil_r (s : string) : s +:+ "" = s.
Proof. induction s as [|c s IH]; [done|]. by rewrite append_cons, IH. Qed.

(** C10.  With the bot running and the Telegram API accepting the
    requests, [sendTelegramMessage] and [sendTelegramResponse] send the same
    messages to the chat: one message holding the whole text when it has at
    most 4000 characters, and otherwise the slices of the text at
    0, 4000, 8000, ... in that order.  Every message has at most 4000
    characters and the messages put together in order are the text. *)
Theorem telegram_split_preserves_text (E : Env) (chat : number) (text : string) (w : World) :
  bot w = true →
  (∀ c md, telegramAccepts E chat c md = true) →
  ∃ new : list TelegramSend,
    sendTelegramMessage E chat text w = (true, set_sent (sent w ++ new) w)
    ∧ sendTelegramResponse E chat text w = Normal (set_sent (sent w ++ new) w)
    ∧ Forall (λ s, ts_chat s = chat ∧ (String.length (ts_text s) ≤ 4000)%nat) new
    ∧ foldr String.append "" (ts_text <$> new) = text
    ∧ ((String.length text ≤ 4000)%nat → ts_text <$> new = [text])
    ∧ ((4000 < String.length text)%nat →
       ∀ k p, (ts_text <$> new) !! k = Some p →
              p = slice text (k * 4000) (k * 4000 + 4000)).
Proof.
  change 4000%nat with maxLen.
  intros Hbot Hacc. unfold sendTelegramMessage, sendTelegramResponse.
  rewrite Hbot. cbn [negb].
  destruct (Nat.leb_spec (String.length text) maxLen) as [Hle|Hgt].
  - exists [{| ts_chat := chat; ts_text := text; ts_markdown := true |}].
    rewrite Hacc. split; [done|]. split; [done|]. split; [|split; [|split]].
    + constructor; [by split|constructor].
    + cbn [fmap list_fmap foldr ts_text]. apply append_nil_r.
    + done.
    + lia.
  - destruct (sendChunks_all_accepted E (S (String.length text)) chat text 0 w)
      as (new & Hrun & Hall & Hcat & Hidx); [done|lia|lia|].
    exists new. rewrite Hrun. split; [done|]. split; [done|].
    split; [done|]. split; [|split].
    + by rewrite Hcat, Nat.sub_0_r, substring_all.
    + lia.
    + intros _ k p Hk. apply Hidx in Hk. by rewrite !Nat.add_0_l in Hk.
Qed.

Lemma telegram_split_preserves_text_witness :
  sendTelegramMessage Sample.env (Num 42) "hello" Sample.world0
  = (true, set_sent [{| ts_chat := Num 42; ts_text := "hello"; ts_markdown := true |}]
             Sample.world0).
Proof.
  destruct (telegram_split_preserves_text Sample.env (Num 42) "hello" Sample.world0)
    as (new & Hmsg & _ & _ & _ & _ & _).
  - reflexivity.
  - reflexivity.
  - vm_compute. reflexivity.
Defined.

(** A text of 8001 characters goes out as three messages of 4000, 4000 and 1. *)
Example split_8001 :
  let text := String.string_of_list_ascii (replicate (4000 + 4000 + 1) "a"%char) in
  String.length <$> (ts_text <$> sent (snd (sendTelegramMessage Sample.env (Num 42) text
                                              Sample.world0)))
  = [4000; 4000; 1]%nat.
Proof. vm_compute. reflexivity. Qed.

(** ** Directory listings *)

Section Listings.

Lemma NoDup_omap_inj {A B : Type} (f : A → option B) (l : list A) :
  (∀ x y z, f x = Some z → f y = Some z → x = y) →
  NoDup l → NoDup (omap f l).
Proof.
  intros Hinj. induction 1 as [|x l Hx Hnd IH]; cbn; [constructor|].
  destruct (f x) as [z|] eqn:Hfx; [|done].
  constructor; [|done].
  intros (y & Hy & Hfy)%list_elem_of_omap.
  by rewrite (Hinj x y z Hfx Hfy) in Hx.
Qed.

Lemma fileEntry_spec (dir p : list string) (x : string) :
  (if (length p =? length dir + 1)%nat then entryUnder dir p else None) = Some x
  ↔ p = (dir ++ [x])%list.
Proof.
  unfold entryUnder. split.
  - destruct (Nat.eqb_spec (length p) (length dir + 1)) as [Hlen|]; [|done].
    case_bool_decide as Htake; [|done]. intros Hx.
    rewrite <- (take_ge p (S (length dir))) by lia.
    rewrite (take_S_r _ _ _ Hx). by rewrite Htake.
  - intros ->. rewrite length_app. cbn [length].
    rewrite Nat.eqb_refl, take_app_length, bool_decide_eq_true_2 by done.
    by rewrite list_lookup_middle.
Qed.

(** The listing of a directory names exactly the files in it, each once. *)
Lemma files_spec (dir : list string) (f : gmap (list string) string) (x : string) :
  x ∈ files dir f ↔ is_Some (f !! (dir ++ [x])%list).
Proof.
  unfold files. rewrite list_elem_of_omap. split.
  - intros (p & Hp & Hx). apply fileEntry_spec in Hx as ->.
    apply list_elem_of_fmap in Hp as ([p b] & -> & Hpb).
    apply elem_of_map_to_list in Hpb. by eexists.
  - intros [b Hb]. exists (dir ++ [x])%list. split; [|by apply fileEntry_spec].
    apply list_elem_of_fmap. exists ((dir ++ [x])%list, b). split; [done|].
    by apply elem_of_map_to_list.
Qed.

Lemma files_NoDup (dir : list string) (f : gmap (list string) string) :
  NoDup (files dir f).
Proof.
  unfold files. apply NoDup_omap_inj; [|apply NoDup_fst_map_to_list].
  intros p q x Hp%fileEntry_spec Hq%fileEntry_spec. congruence.
Qed.

Lemma jsonFiles_spec (sourceGroup : string) (kind : MailboxKind)
    (f : gmap (list string) string) (x : string) :
  x ∈ jsonFiles sourceGroup kind f
  ↔ is_Some (f !! entryPath sourceGroup kind x) ∧ endsWith ".json" x = true.
Proof.
  unfold jsonFiles. rewrite list_elem_of_In, filter_In, <- list_elem_of_In.
  by rewrite files_spec.
Qed.

Lemma jsonFiles_NoDup (sourceGroup : string) (kind : MailboxKind)
    (f : gmap (list string) string) :
  NoDup (jsonFiles sourceGroup kind f).
Proof.
  unfold jsonFiles. apply NoDup_ListNoDup, List.NoDup_filter, NoDup_ListNoDup, files_NoDup.
Qed.

Lemma groupFolders_not_errors (f : gmap (list string) string) (g : string) :
  g ∈ groupFolders f → g ≠ "errors".
Proof.
  unfold groupFolders. rewrite list_elem_of_In, filter_In.
  intros [_ Hne] ->. discriminate.
Qed.

End Listings.

(** ** Runs of the drainer *)

Section Drains.

Context (E : Env).

Lemma drains_refl (w : World) : drains E w w.
Proof.
  exists []. rewrite app_nil_r.
  split; [done|]. split; [auto|]. split; [auto|]. split; [by left|].
  intros e He. by apply not_elem_of_nil in He.
Qed.

Lemma drains_trans (w1 w2 w3 : World) :
  drains E w1 w2 → drains E w2 w3 → drains E w1 w3.
Proof.
  intros (n1 & Ht1 & Hmono1 & Herr1 & Hfate1 & Hev1) (n2 & Ht2 & Hmono2 & Herr2 & Hfate2 & Hev2).
  exists (n1 ++ n2). split; [by rewrite Ht2, Ht1, app_assoc|].
  split; [by eauto|]. split; [by eauto|]. split.
  - intros p b Hlen Hp.
    destruct (Hfate1 p b Hlen Hp) as [Hp2|(g & k & f & -> & Hgone & Hevs)].
    + destruct (Hfate2 p b Hlen Hp2) as [Hp3|(g & k & f & -> & Hgone & Hevs)]; [by left|].
      right. exists g, k, f. split; [done|]. split; [done|].
      destruct Hevs as [Hq|[Hu Hd]]; [left|right; split; [|done]];
        apply elem_of_app; by right.
    + right. exists g, k, f. split; [done|]. split.
      * destruct (fs w3 !! entryPath g k f) as [b'|] eqn:Hb'; [|done].
        apply Hmono2 in Hb'; [congruence|done].
      * destruct Hevs as [Hq|[Hu Hd]]; [left|right; split; [|done]];
          apply elem_of_app; by left.
  - intros e [He|He]%elem_of_app; [by apply Hev1|].
    destruct (Hev2 e He) as (Hok & g & k & f & Hentry & [b Hb]).
    split; [done|]. exists g, k, f. split; [done|].
    exists b. by apply Hmono1.
Qed.

(** One iteration on a file that is there. *)
Lemma processEntry_drains (sourceGroup : string) (kind : MailboxKind) (file : string)
    (w : World) :
  sourceGroup ≠ "errors" →
  is_Some (fs w !! entryPath sourceGroup kind file) →
  let isMain := String.eqb sourceGroup (MAIN_GROUP_FOLDER E) in
  ∃ w', processEntry E sourceGroup kind isMain file w = Continue w'
        ∧ drains E w w'
        ∧ fs w' !! entryPath sourceGroup kind file = None
        ∧ (∀ p, p ≠ entryPath sourceGroup kind file → length p = 3%nat →
                fs w' !! p = fs w !! p).
Proof.
  intros Hg [body Hbody] isMain.
  pose proof (processEntry_present E sourceGroup kind isMain file body w Hbody) as Hstep.
  cbv zeta in Hstep.
  set (w0 := emit (EvElevation sourceGroup kind file isMain) w) in *.
  set (path := entryPath sourceGroup kind file) in *.
  assert (Hlen : length path = 3%nat) by done.
  (* the two ways an iteration ends *)
  assert (Hmoved : ∀ w1, trace w1 = trace w0 →
    let w' := emit (EvQuarantine sourceGroup kind file)
                (set_fs (<[errorPath sourceGroup file := body]> (delete path (fs w))) w1) in
    drains E w w' ∧ fs w' !! path = None
    ∧ (∀ p, p ≠ path → length p = 3%nat → fs w' !! p = fs w !! p)).
  { intros w1 Htr w'. split; [|split].
    - exists [EvElevation sourceGroup kind file isMain; EvQuarantine sourceGroup kind file].
      split; [subst w'; cbn; rewrite Htr; cbn; by rewrite <- app_assoc|].
      split.
      { intros p b Hp. cbn. rewrite lookup_insert_ne by (intros <-; done).
        rewrite lookup_delete. case_decide; [done|auto]. }
      split.
      { intros p Hp [b Hb]. cbn. rewrite lookup_insert. case_decide; [by eexists|].
        rewrite lookup_delete_ne by (intros <-; done). by eexists. }
      split.
      { intros p b Hp Hb. destruct (decide (p = path)) as [->|Hne].
        - right. exists sourceGroup, kind, file. split; [done|]. split.
          + cbn. rewrite lookup_insert_ne by done. apply lookup_delete_eq.
          + left. rewrite !elem_of_cons. auto.
        - left. cbn. rewrite lookup_insert_ne by (intros <-; done).
          by rewrite lookup_delete_ne. }
      intros e He. split.
      { apply elem_of_cons in He as [->|He]; [done|].
        apply list_elem_of_singleton in He as ->. done. }
      exists sourceGroup, kind, file. split; [|by eexists].
      apply elem_of_cons in He as [->|He]; [done|].
      by apply list_elem_of_singleton in He as ->.
    - cbn. rewrite lookup_insert_ne by done. apply lookup_delete_eq.
    - intros p Hne Hp. cbn. rewrite lookup_insert_ne by (intros <-; done).
      by rewrite lookup_delete_ne. }
  destruct (JSON_parse E body) as [| |data] eqn:Hparse.
  - eexists. split; [exact Hstep|]. by apply Hmoved.
  - eexists. split; [exact Hstep|]. by apply Hmoved.
  - destruct (handleEntry_files E kind data sourceGroup isMain w0) as [_ Htr].
    destruct (handleEntry E kind data sourceGroup isMain w0) as [w1|w1]; cbn in Htr.
    + eexists. split; [exact Hstep|]. split; [|split].
      * exists [EvElevation sourceGroup kind file isMain; EvUnlink sourceGroup kind file].
        split; [cbn; rewrite Htr; by rewrite <- app_assoc|].
        split.
        { intros p b Hp. cbn. rewrite lookup_delete. case_decide; [done|auto]. }
        split.
        { intros p Hp [b Hb]. cbn. rewrite lookup_delete_ne by (intros <-; done).
          by eexists. }
        split.
        { intros p b Hp Hb. destruct (decide (p = path)) as [->|Hne].
          - right. exists sourceGroup, kind, file. split; [done|]. split.
            + cbn. apply lookup_delete_eq.
            + right. split; [rewrite !elem_of_cons; auto|]. exists data.
              replace b with body by congruence. done.
          - left. cbn. by rewrite lookup_delete_ne. }
        intros e He. split.
        { apply elem_of_cons in He as [->|He]; [done|].
          apply list_elem_of_singleton in He as ->. done. }
        exists sourceGroup, kind, file. split; [|by eexists].
        apply elem_of_cons in He as [->|He]; [done|].
        by apply list_elem_of_singleton in He as ->.
      * cbn. apply lookup_delete_eq.
      * intros p Hne Hp. cbn. by rewrite lookup_delete_ne.
    + eexists. split; [exact Hstep|]. by apply Hmoved.
Qed.

Lemma drainFiles_drains (sourceGroup : string) (kind : MailboxKind) (names : list string)
    (w : World) :
  sourceGroup ≠ "errors" →
  NoDup names →
  (∀ f, f ∈ names → is_Some (fs w !! entryPath sourceGroup kind f)) →
  drains E w (drainFiles E sourceGroup kind
                (String.eqb sourceGroup (MAIN_GROUP_FOLDER E)) names w).
Proof.
  intros Hg Hnd. revert w.
  induction Hnd as [|file rest Hfile Hnd IH]; intros w Hthere; cbn [drainFiles].
  - apply drains_refl.
  - destruct (processEntry_drains sourceGroup kind file w Hg) as (w1 & -> & Hd & _ & Hrest).
    { apply Hthere. by left. }
    eapply drains_trans; [exact Hd|]. apply IH.
    intros f Hf. rewrite Hrest; [apply Hthere; by right| |done].
    intros [= ->]. done.
Qed.

Lemma drainDir_drains (sourceGroup : string) (kind : MailboxKind) (w : World) :
  sourceGroup ≠ "errors" →
  drains E w (drainDir E sourceGroup kind (String.eqb sourceGroup (MAIN_GROUP_FOLDER E)) w).
Proof.
  intros Hg. unfold drainDir.
  apply drainFiles_drains; [done|apply jsonFiles_NoDup|].
  intros f Hf. by apply jsonFiles_spec in Hf as [? _].
Qed.

Lemma processGroup_drains (sourceGroup : string) (w : World) :
  sourceGroup ≠ "errors" → drains E w (processGroup E sourceGroup w).
Proof.
  intros Hg. unfold processGroup.
  eapply drains_trans; by apply drainDir_drains.
Qed.

Lemma processIpcFiles_drains (w : World) : drains E w (processIpcFiles E w).
Proof.
  unfold processIpcFiles.
  assert (Hgs : ∀ g, g ∈ groupFolders (fs w) → g ≠ "errors")
    by apply groupFolders_not_errors.
  revert Hgs. generalize (groupFolders (fs w)) as gs. intros gs. revert w.
  induction gs as [|g gs IH]; intros w Hgs; cbn [foldl]; [apply drains_refl|].
  eapply drains_trans.
  - apply (processGroup_drains g w). apply Hgs. by left.
  - apply IH. intros g' Hg'. apply Hgs. by right.
Qed.

(** Any number of passes. *)
Lemma passes_drains (n : nat) (w : World) :
  drains E w (Nat.iter n (processIpcFiles E) w).
Proof.
  induction n as [|n IH]; cbn [Nat.iter]; [apply drains_refl|].
  eapply drains_trans; [exact IH|apply processIpcFiles_drains].
Qed.

End Drains.

(** ** The claims about the drainer *)

(** What later passes make of an entry that is gone from its mailbox. *)
Lemma gone_entry_stays_gone (E : Env) (sourceGroup : string) (kind : MailboxKind)
    (file : string) (w : World) (n : nat) :
  fs w !! entryPath sourceGroup kind file = None →
  let w' := Nat.iter n (processIpcFiles E) w in
  fs w' !! entryPath sourceGroup kind file = None
  ∧ ∀ e, e ∈ trace w' →
         e ∈ trace w
         ∨ (eventEntry e ≠ (sourceGroup, kind, file) ∧ (eventEntry e).1.1 ≠ "errors").
Proof.
  intros Hgone w'.
  destruct (passes_drains E n w) as (new & Htr & Hmono & _ & _ & Hev). fold w' in Htr, Hmono.
  split.
  - destruct (fs w' !! entryPath sourceGroup kind file) as [b|] eqn:Hb; [|done].
    apply Hmono in Hb; [congruence|done].
  - intros e. rewrite Htr. intros [He|He]%elem_of_app; [by left|right].
    destruct (Hev e He) as ([Hne _] & g & k & f & Hentry & [b Hb]).
    split; [|done]. rewrite Hentry. intros [= -> -> ->]. congruence.
Qed.







(** C7.  When the handler of a control request returns without throwing --
    as it does on every rejection, for missing fields, for lack of
    authorization, or for an invalid schedule value -- the file is unlinked:
    nothing is written to the errors directory, the one disposition recorded
    is the unlink, and in all later passes the entry is not pending and
    nothing of that name is handled again. *)
Theorem rejected_request_is_deleted (E : Env) (sourceGroup : string) (isMain : bool)
    (file body : string) (data : IpcData) (w w1 : World) :
  fs w !! entryPath sourceGroup Tasks file = Some body →
  JSON_parse E body = JsonObject data →
  processTaskIpc E data sourceGroup isMain (emit (EvElevation sourceGroup Tasks file isMain) w)
  = Normal w1 →
  ∃ w',
    processEntry E sourceGroup Tasks isMain file w = Continue w'
    ∧ fs w' = delete (entryPath sourceGroup Tasks file) (fs w)
    ∧ fs w' !! errorPath sourceGroup file = fs w !! errorPath sourceGroup file
    ∧ trace w' = trace w ++ [EvElevation sourceGroup Tasks file isMain;
                             EvUnlink sourceGroup Tasks file]
    ∧ ∀ n, let w'' := Nat.iter n (processIpcFiles E) w' in
        fs w'' !! entryPath sourceGroup Tasks file = None
        ∧ ∀ e, e ∈ trace w'' → e ∈ trace w' ∨ eventEntry e ≠ (sourceGroup, Tasks, file).
Proof.
  intros Hbody Hparse Hnormal.
  pose proof (processEntry_present E sourceGroup Tasks isMain file body w Hbody) as Hstep.
  cbv zeta in Hstep. rewrite Hparse in Hstep. cbn [handleEntry] in Hstep.
  rewrite Hnormal in Hstep.
  destruct (processTaskIpc_files E data sourceGroup isMain
              (emit (EvElevation sourceGroup Tasks file isMain) w)) as [_ Ht].
  rewrite Hnormal in Ht. cbn in Ht.
  eexists. split; [exact Hstep|]. split; [done|].
  split; [cbn; by rewrite lookup_delete_ne|].
  split; [cbn; by rewrite Ht, <- app_assoc|].
  intros n w''.
  match type of Hstep with _ = Continue ?x => set (w' := x) in * end.
  assert (Hgone : fs w' !! entryPath sourceGroup Tasks file = None)
    by apply lookup_delete_eq.
  destruct (gone_entry_stays_gone E sourceGroup Tasks file w' n Hgone) as [Hn Hev].
  split; [done|]. intros e He. destruct (Hev e He) as [?|[? _]]; auto.
Qed.

Lemma rejected_request_is_deleted_witness :
  let w := set_fs {[ ["family"; "tasks"; "a.json"] := "{type:telegram_approve,userId:7}";
                     ["errors"; "old"] := "kept" ]} Sample.world0 in
  ∃ w', processEntry Sample.env "family" Tasks false "a.json" w = Continue w'
        ∧ fs w' = {[ ["errors"; "old"] := "kept" ]}.
Proof.
  intros w.
  destruct (rejected_request_is_deleted Sample.env "family" false "a.json"
              "{type:telegram_approve,userId:7}" (Sample.userOp "telegram_approve" 7) w
              (emit (EvElevation "family" Tasks "a.json" false) w))
    as (w' & Hrun & Hfs & _).
  - vm_compute. reflexivity.
  - vm_compute. reflexivity.
  - vm_compute. reflexivity.
  - exists w'. split; [exact Hrun|]. rewrite Hfs. vm_compute. reflexivity.
Defined.

Section TraceIndependence.

Context (E : Env).



End TraceIndependence.

Section OutboundMessages.

Context (E : Env).

(** An outbound message is dropped unless it comes from the elevated tenant
    and names a well-formed destination. *)
Lemma processMessageIpc_blocked (data : IpcData) (sourceGroup : string) (isMain : bool)
    (w : World) :
  isMain = false ∨ wellFormedDestination (default "" (d_chatJid data)) = false →
  processMessageIpc E data sourceGroup isMain w = Normal w.
Proof.
  unfold processMessageIpc, wellFormedDestination.
  intros [->|Hbad]; [by repeat case_match|].
  destruct (startsWith "tg:" (default "" (d_chatJid data))); cbn [andb] in Hbad;
    [|by repeat case_match].
  rewrite Hbad. by repeat case_match.
Qed.


End OutboundMessages.



(** The same entry in the elevated tenant's mailbox is delivered. *)
Example outbound_message_from_main :
  let body := "{type:message,chatJid:tg:42,text:hello}" in
  let w := set_fs {[ ["main"; "messages"; "m.json"] := body ]} Sample.world0 in
  sent (processIpcFiles Sample.env w)
  = [{| ts_chat := Num 42; ts_text := "m87: hello"; ts_markdown := true |}].
Proof. vm_compute. reflexivity. Qed.

(** * Further properties of the host *)

(** ** What a tenant can do through its task mailbox *)

Section TenantBoundary.

Context (E : Env).

Lemma alter_changed {A} (f : A → A) (k id : string) (m : gmap string A) :
  alter f k m !! id ≠ m !! id → id = k.
Proof.
  intros Hne. destruct (decide (k = id)) as [->|Hd]; [done|].
  by rewrite lookup_alter_ne in Hne.
Qed.

Lemma delete_changed {A} (k id : string) (m : gmap string A) :
  delete k m !! id ≠ m !! id → id = k.
Proof.
  intros Hne. destruct (decide (k = id)) as [->|Hd]; [done|].
  by rewrite lookup_delete_ne in Hne.
Qed.

Lemma withStatus_group_folder (s : string) (t : ScheduledTask) :
  t_group_folder (withStatus s t) = t_group_folder t.
Proof. done. Qed.

Lemma scheduleGuards_own_group (data : IpcData) (sourceGroup : string) (w : World) :
  scheduleGuards data sourceGroup false w = true →
  default "" (d_groupFolder data) = sourceGroup.
Proof.
  unfold scheduleGuards. intros H.
  apply andb_prop in H as [H _]. apply andb_prop in H as [_ H].
  cbn [negb andb] in H. apply negb_true_iff, negb_false_iff in H.
  by apply String.eqb_eq.
Qed.

Lemma processTaskIpc_non_elevated (data : IpcData) (sourceGroup : string)
    (w : World) :
  let w' := worldOf (processTaskIpc E data sourceGroup false w) in
  registeredGroups w' = registeredGroups w
  ∧ groupDirs w' = groupDirs w
  ∧ pairedUsers w' = pairedUsers w
  ∧ pendingApprovals w' = pendingApprovals w
  ∧ sent w' = sent w
  ∧ ∀ id, tasks w' !! id ≠ tasks w !! id →
      (∀ t, tasks w !! id = Some t → t_group_folder t = sourceGroup)
      ∧ (∀ t, tasks w' !! id = Some t → t_group_folder t = sourceGroup).
Proof.
  intros w'. subst w'.
  assert (Hsplit : ∀ w', registeredGroups w' = registeredGroups w →
            groupDirs w' = groupDirs w → pairedUsers w' = pairedUsers w →
            pendingApprovals w' = pendingApprovals w → sent w' = sent w →
            (∀ id t, tasks w' !! id ≠ tasks w !! id → tasks w !! id = Some t →
                     t_group_folder t = sourceGroup) →
            (∀ id t, tasks w' !! id ≠ tasks w !! id → tasks w' !! id = Some t →
                     t_group_folder t = sourceGroup) →
            registeredGroups w' = registeredGroups w
            ∧ groupDirs w' = groupDirs w
            ∧ pairedUsers w' = pairedUsers w
            ∧ pendingApprovals w' = pendingApprovals w
            ∧ sent w' = sent w
            ∧ ∀ id, tasks w' !! id ≠ tasks w !! id →
                (∀ t, tasks w !! id = Some t → t_group_folder t = sourceGroup)
                ∧ (∀ t, tasks w' !! id = Some t → t_group_folder t = sourceGroup)).
  { intros w' ? ? ? ? ? Hold Hnew. do 5 (split; [done|]). intros id Hne. split; eauto. }
  assert (Hsame : ∀ w', w' = w →
            registeredGroups w' = registeredGroups w
            ∧ groupDirs w' = groupDirs w
            ∧ pairedUsers w' = pairedUsers w
            ∧ pendingApprovals w' = pendingApprovals w
            ∧ sent w' = sent w
            ∧ ∀ id, tasks w' !! id ≠ tasks w !! id →
                (∀ t, tasks w !! id = Some t → t_group_folder t = sourceGroup)
                ∧ (∀ t, tasks w' !! id = Some t → t_group_folder t = sourceGroup)).
  { intros w' ->. by apply Hsplit. }
  destruct (same (d_type data) "schedule_task") eqn:Hty.
  - rewrite processTaskIpc_schedule_task by done.
    destruct (scheduleGuards data sourceGroup false w) eqn:Hg; [|by apply Hsame].
    apply scheduleGuards_own_group in Hg.
    destruct (initialNextRun E _ _ (now w)) as [nextRun| |]; [|by apply Hsame..].
    unfold createTask. cbn [tasks set_draws].
    destruct (tasks w !! t_id (scheduledRow E data nextRun w)) eqn:Hrow.
    { cbn [worldOf]. by apply Hsplit. }
    cbn [worldOf]. apply Hsplit; try done; cbn [tasks set_tasks set_draws].
    + intros id t Hne Ht. rewrite lookup_insert in Hne. case_decide; [subst; congruence|done].
    + intros id t Hne. rewrite lookup_insert in Hne |- *. case_decide; [|done].
      by intros [= <-].
  - unfold processTaskIpc. rewrite Hty. cbn [negb].
    unfold mayMutate, getTaskById.
    repeat case_match; cbn [worldOf orb] in *; try (by apply Hsame).
    all: match goal with
         | H : String.eqb (t_group_folder ?t) ?g = true |- _ =>
             apply String.eqb_eq in H; rename H into Hown
         end.
    all: match goal with
         | H : tasks ?x !! ?k = Some ?t0 |- _ => rename H into Hk
         end.
    all: apply Hsplit; try done; unfold updateTask, deleteTask; cbn [tasks set_tasks].
    all: intros id t Hne Ht.
    all: first [ apply alter_changed in Hne as -> | apply delete_changed in Hne as -> ].
    all: first
      [ congruence
      | rewrite lookup_alter_eq, Hk in Ht; injection Ht as <-; exact Hown
      | by rewrite lookup_delete_eq in Ht ].
Qed.

End TenantBoundary.

(** X1: a control request handled without elevation touches neither the
    registry, nor the group folders, nor the pairing store, nor sends
    anything, and the only rows of the task table that differ afterwards
    belong to the requesting group, before and after. *)
Theorem non_elevated_request_stays_in_tenant (E : Env) (data : IpcData)
    (sourceGroup : string) (w : World) :
  let w' := worldOf (processTaskIpc E data sourceGroup false w) in
  registeredGroups w' = registeredGroups w
  ∧ groupDirs w' = groupDirs w
  ∧ pairedUsers w' = pairedUsers w
  ∧ pendingApprovals w' = pendingApprovals w
  ∧ sent w' = sent w
  ∧ ∀ id, tasks w' !! id ≠ tasks w !! id →
      (∀ t, tasks w !! id = Some t → t_group_folder t = sourceGroup)
      ∧ (∀ t, tasks w' !! id = Some t → t_group_folder t = sourceGroup).
Proof. apply processTaskIpc_non_elevated. Qed.

(** ** Pausing, resuming and cancelling a task *)

Section TaskRequests.

Context (E : Env).

Lemma alter_present {A} (f : A → A) (k : string) (x : A) (m : gmap string A) :
  m !! k = Some x → alter f k m = <[k := f x]> m.
Proof.
  intros Hk. apply map_eq. intros j. destruct (decide (k = j)) as [<-|Hne].
  - by rewrite lookup_alter_eq, lookup_insert_eq, Hk.
  - by rewrite lookup_alter_ne, lookup_insert_ne.
Qed.

Lemma truthy_id (id : string) : id ≠ "" → truthy (Some id) = true.
Proof. intros Hne. cbn. by destruct (String.eqb_spec id ""). Qed.

Lemma status_request_equation (data : IpcData) (sourceGroup : string)
    (isMain : bool) (w : World) (taskId status : string) (t : ScheduledTask) :
  (d_type data = Some "pause_task" ∧ status = "paused")
  ∨ (d_type data = Some "resume_task" ∧ status = "active") →
  d_taskId data = Some taskId →
  taskId ≠ "" →
  tasks w !! taskId = Some t →
  isMain = true ∨ t_group_folder t = sourceGroup →
  processTaskIpc E data sourceGroup isMain w
  = Normal (set_tasks (<[taskId := withStatus status t]> (tasks w)) w).
Proof.
  intros Hty Hid Hne Ht Hauth.
  assert (Hmay : mayMutate (getTaskById taskId w) sourceGroup isMain = true).
  { unfold mayMutate, getTaskById. rewrite Ht.
    destruct Hauth as [->| ->]; [done|]. rewrite String.eqb_refl. apply orb_true_r. }
  unfold processTaskIpc.
  destruct Hty as [[Hty ->]|[Hty ->]]; rewrite Hty, Hid;
    cbn [same default String.eqb Ascii.eqb Bool.eqb andb]; unfold id;
    rewrite (truthy_id taskId Hne), Hmay;
    unfold updateTask; by rewrite (alter_present _ _ _ _ Ht).
Qed.

Lemma task_request_unknown (data : IpcData) (sourceGroup : string) (isMain : bool)
    (w : World) :
  isTaskRequest data →
  (∀ taskId, d_taskId data = Some taskId → taskId ≠ "" → tasks w !! taskId = None) →
  processTaskIpc E data sourceGroup isMain w = Normal w.
Proof.
  intros Hty Hnone. unfold processTaskIpc, mayMutate, getTaskById.
  destruct (d_taskId data) as [taskId|] eqn:Hid; cbn [truthy default]; unfold id.
  - destruct (String.eqb_spec taskId "") as [->|Hne]; cbn [negb].
    + destruct Hty as [Hty|[Hty|Hty]]; rewrite Hty;
        by cbn [same String.eqb Ascii.eqb Bool.eqb andb].
    + rewrite (Hnone taskId eq_refl Hne).
      destruct Hty as [Hty|[Hty|Hty]]; rewrite Hty;
        by cbn [same String.eqb Ascii.eqb Bool.eqb andb].
  - destruct Hty as [Hty|[Hty|Hty]]; rewrite Hty;
      by cbn [same String.eqb Ascii.eqb Bool.eqb andb].
Qed.

Lemma cancel_request_equation (data : IpcData) (sourceGroup : string) (isMain : bool)
    (w : World) (taskId : string) (t : ScheduledTask) :
  d_type data = Some "cancel_task" →
  d_taskId data = Some taskId →
  taskId ≠ "" →
  tasks w !! taskId = Some t →
  isMain = true ∨ t_group_folder t = sourceGroup →
  processTaskIpc E data sourceGroup isMain w = Normal (set_tasks (delete taskId (tasks w)) w).
Proof.
  intros Hty Hid Hne Ht Hauth.
  assert (Hmay : mayMutate (getTaskById taskId w) sourceGroup isMain = true).
  { unfold mayMutate, getTaskById. rewrite Ht.
    destruct Hauth as [->| ->]; [done|]. rewrite String.eqb_refl. apply orb_true_r. }
  unfold processTaskIpc. rewrite Hty, Hid.
  cbn [same default String.eqb Ascii.eqb Bool.eqb andb]. unfold id.
  by rewrite (truthy_id taskId Hne), Hmay.
Qed.

Lemma set_tasks_same (w : World) : set_tasks (tasks w) w = w.
Proof. by destruct w. Qed.

Lemma withStatus_restore (t : ScheduledTask) (s : string) :
  withStatus (t_status t) (withStatus s t) = t.
Proof. by destruct t. Qed.

End TaskRequests.

(** X2: a pause or resume request of the owner (or of the elevated tenant)
    for a task that exists sets the status of that row and changes nothing
    else: the other columns of the row, the other rows and the rest of the
    state are as before. *)
Theorem status_request_sets_status_only (E : Env) (data : IpcData) (sourceGroup : string)
    (isMain : bool) (w : World) (taskId status : string) (t : ScheduledTask) :
  (d_type data = Some "pause_task" ∧ status = "paused")
  ∨ (d_type data = Some "resume_task" ∧ status = "active") →
  d_taskId data = Some taskId →
  taskId ≠ "" →
  tasks w !! taskId = Some t →
  isMain = true ∨ t_group_folder t = sourceGroup →
  processTaskIpc E data sourceGroup isMain w
  = Normal (set_tasks (<[taskId := withStatus status t]> (tasks w)) w).
Proof. apply status_request_equation. Qed.

Lemma status_request_sets_status_only_witness :
  let w := set_tasks {["t1" := Sample.task1]} Sample.world0 in
  processTaskIpc Sample.env (Sample.taskOp "pause_task" "t1") "main" false w
  = Normal (set_tasks {["t1" := withStatus "paused" Sample.task1]} w).
Proof.
  intros w.
  assert (Hrun := status_request_sets_status_only Sample.env
                    (Sample.taskOp "pause_task" "t1") "main" false w "t1" "paused"
                    Sample.task1 (or_introl (conj eq_refl eq_refl)) eq_refl).
  rewrite Hrun.
  - vm_compute. reflexivity.
  - discriminate.
  - vm_compute. reflexivity.
  - right. reflexivity.
Defined.

(** X3: pausing an active task and then resuming it gives back the state
    from before the pause. *)
Theorem pause_then_resume_restores (E : Env) (pause resume : IpcData)
    (sourceGroup : string) (isMain : bool) (w : World) (taskId : string)
    (t : ScheduledTask) :
  d_type pause = Some "pause_task" →
  d_type resume = Some "resume_task" →
  d_taskId pause = Some taskId →
  d_taskId resume = Some taskId →
  taskId ≠ "" →
  tasks w !! taskId = Some t →
  t_status t = "active" →
  isMain = true ∨ t_group_folder t = sourceGroup →
  ∃ w1, processTaskIpc E pause sourceGroup isMain w = Normal w1
        ∧ t_status <$> tasks w1 !! taskId = Some "paused"
        ∧ processTaskIpc E resume sourceGroup isMain w1 = Normal w.
Proof.
  intros Hp Hr Hpid Hrid Hne Ht Hactive Hauth.
  eexists. split.
  { apply (status_request_equation E pause sourceGroup isMain w taskId "paused" t); auto. }
  split; [cbn; by rewrite lookup_insert_eq|].
  rewrite (status_request_equation E resume sourceGroup isMain _ taskId "active"
             (withStatus "paused" t)); auto.
  - cbn [tasks set_tasks]. rewrite insert_insert_eq. rewrite <- Hactive.
    rewrite withStatus_restore, insert_id by done.
    f_equal. by destruct w.
  - cbn. apply lookup_insert_eq.
Qed.

Lemma pause_then_resume_restores_witness :
  let w := set_tasks {["t1" := Sample.task1]} Sample.world0 in
  ∃ w1, processTaskIpc Sample.env (Sample.taskOp "pause_task" "t1") "main" false w
        = Normal w1
        ∧ processTaskIpc Sample.env (Sample.taskOp "resume_task" "t1") "main" false w1
          = Normal w.
Proof.
  intros w.
  destruct (pause_then_resume_restores Sample.env (Sample.taskOp "pause_task" "t1")
              (Sample.taskOp "resume_task" "t1") "main" false w "t1" Sample.task1)
    as (w1 & H1 & _ & H2).
  - reflexivity.
  - reflexivity.
  - reflexivity.
  - reflexivity.
  - discriminate.
  - vm_compute. reflexivity.
  - reflexivity.
  - right. reflexivity.
  - exists w1. split; [exact H1|exact H2].
Defined.

(** X4: a cancel request of the owner (or of the elevated tenant) removes
    the row and nothing else, and from then on every pause, resume or
    cancel request for that id, from any tenant, changes nothing. *)
Theorem cancel_is_final (E : Env) (data : IpcData) (sourceGroup : string) (isMain : bool)
    (w : World) (taskId : string) (t : ScheduledTask) :
  d_type data = Some "cancel_task" →
  d_taskId data = Some taskId →
  taskId ≠ "" →
  tasks w !! taskId = Some t →
  isMain = true ∨ t_group_folder t = sourceGroup →
  let w1 := set_tasks (delete taskId (tasks w)) w in
  processTaskIpc E data sourceGroup isMain w = Normal w1
  ∧ ∀ later g' isMain',
      isTaskRequest later → d_taskId later = Some taskId →
      processTaskIpc E later g' isMain' w1 = Normal w1.
Proof.
  intros Hty Hid Hne Ht Hauth w1. split.
  - by apply (cancel_request_equation E data sourceGroup isMain w taskId t).
  - intros later g' isMain' Hlater Hlid. apply task_request_unknown; [done|].
    intros k Hk _. rewrite Hlid in Hk. injection Hk as <-. apply lookup_delete_eq.
Qed.

Lemma cancel_is_final_witness :
  let w := set_tasks {["t1" := Sample.task1]} Sample.world0 in
  processTaskIpc Sample.env (Sample.taskOp "cancel_task" "t1") "family" true w
  = Normal (set_tasks (delete "t1" (tasks w)) w).
Proof.
  intros w.
  apply (cancel_is_final Sample.env (Sample.taskOp "cancel_task" "t1") "family" true w
           "t1" Sample.task1).
  - reflexivity.
  - reflexivity.
  - discriminate.
  - vm_compute. reflexivity.
  - left. reflexivity.
Defined.

(** X5: a pause, resume or cancel request without a task id, with an empty
    one, or for an id that is not in the table is ignored, also when it
    comes from the elevated tenant. *)
Theorem task_request_unknown_id_ignored (E : Env) (data : IpcData) (sourceGroup : string)
    (isMain : bool) (w : World) :
  isTaskRequest data →
  (∀ taskId, d_taskId data = Some taskId → taskId ≠ "" → tasks w !! taskId = None) →
  processTaskIpc E data sourceGroup isMain w = Normal w.
Proof. apply task_request_unknown. Qed.

Lemma task_request_unknown_id_ignored_witness :
  processTaskIpc Sample.env (Sample.taskOp "resume_task" "t9") "main" true Sample.world0
  = Normal Sample.world0.
Proof.
  apply (task_request_unknown_id_ignored Sample.env (Sample.taskOp "resume_task" "t9")
           "main" true Sample.world0).
  - right. left. reflexivity.
  - intros taskId _ _. apply lookup_empty.
Defined.

(** ** Exceptions of the handler *)




(** ** Registering a group *)

Section Registry.

Context (E : Env).

Lemma objGet_objSet_eq {V} (k : string) (v : V) (o : list (string * V)) :
  objGet k (objSet k v o) = Some v.
Proof.
  induction o as [|[k' v'] o IH]; cbn; [by rewrite String.eqb_refl|].
  destruct (String.eqb_spec k' k) as [->|Hne]; cbn.
  - by rewrite String.eqb_refl.
  - by destruct (String.eqb_spec k' k).
Qed.

Lemma objGet_objSet_ne {V} (k j : string) (v : V) (o : list (string * V)) :
  j ≠ k → objGet j (objSet k v o) = objGet j o.
Proof.
  intros Hne. induction o as [|[k' v'] o IH]; cbn.
  - by destruct (String.eqb_spec k j) as [->|].
  - destruct (String.eqb_spec k' k) as [->|Hk]; cbn.
    + destruct (String.eqb_spec k j) as [->|]; [done|]. done.
    + by rewrite IH.
Qed.

(** The keys stay distinct. *)
Lemma objSet_NoDup {V} (k : string) (v : V) (o : list (string * V)) :
  NoDup o.*1 → NoDup (objSet k v o).*1.
Proof.
  induction o as [|[k' v'] o IH]; cbn; [intros _; apply NoDup_singleton|].
  intros [Hk' Hnd]%NoDup_cons.
  destruct (String.eqb_spec k' k) as [->|Hne]; cbn; [by constructor|].
  constructor; [|by apply IH].
  intros Hin. apply Hk'. clear IH Hnd Hk'.
  induction o as [|[k2 v2] o IH]; cbn in *.
  - apply list_elem_of_singleton in Hin. congruence.
  - destruct (String.eqb_spec k2 k) as [->|Hk2]; cbn in *.
    + apply elem_of_cons in Hin as [->|Hin]; [done|]. by right.
    + apply elem_of_cons in Hin as [->|Hin]; [by left|]. right. by apply IH.
Qed.



End Registry.



(** ** Access requests, approvals and denials *)

Section PairingMore.

Context (E : Env).

Lemma requestApproval_again (u : number) (a b c a' b' c' : option string) (w : World) :
  requestApproval u a b c (requestApproval u a' b' c' w) = requestApproval u a' b' c' w.
Proof.
  unfold requestApproval at 1.
  destruct (requestApproval_stores u a' b' c' w) as (_ & [x Hx] & _). cbv zeta in Hx.
  by rewrite Hx.
Qed.

Lemma denyUser_result (u : number) (w : World) :
  fst (denyUser E u w) = bool_decide (is_Some (pendingApprovals w !! u))
  ∧ (pendingApprovals w !! u = None → snd (denyUser E u w) = w).
Proof.
  unfold denyUser. destruct (pendingApprovals w !! u) eqn:Hp; cbn [fst snd].
  - split; [|done]. symmetry. apply bool_decide_eq_true. by eexists.
  - split; [|done]. symmetry. apply bool_decide_eq_false. by intros [? ?].
Qed.

Lemma approve_after_request (u : number) (un fn msg by_ : option string) (w : World) :
  pendingApprovals w !! u = None →
  let w2 := snd (approveUser E u by_ (requestApproval u un fn msg w)) in
  pairedUsers w2 !! u
  = Some {| pu_userId := u; pu_username := un; pu_firstName := fn;
            pu_pairedAt := now w; pu_approvedBy := by_ |}
  ∧ pendingApprovals w2 = pendingApprovals w.
Proof.
  intros Hfresh. unfold requestApproval. rewrite Hfresh.
  unfold approveUser. cbn [snd].
  match goal with |- context [notifyUser E ?x ?t ?y] =>
    destruct (notifyUser_stores E x t y) as [-> ->] end.
  cbn [pendingApprovals set_pendingApprovals pairedUsers set_pairedUsers now].
  rewrite lookup_insert_eq. cbn.
  rewrite lookup_insert_eq. split; [done|].
  rewrite delete_insert_eq. by apply delete_id.
Qed.

Lemma gate_admits (uid : option Z) (un fn : option string) (text : string) (w : World) :
  fst (handleMessage_pairing uid un fn text w) = true
  ↔ uid = None ∨ uid = Some 0%Z ∨ ∃ z, uid = Some z ∧ is_Some (pairedUsers w !! Num z).
Proof.
  unfold handleMessage_pairing, isUserPaired.
  destruct uid as [z|]; [|by split; [left|]].
  destruct (Z.eqb_spec z 0) as [->|Hz]; cbn [negb andb].
  - split; [by right; left|done].
  - case_bool_decide as Hp; cbn [negb fst].
    + split; [intros _; right; right; eauto|done].
    + split.
      * by destruct (hasPendingApproval (Num z) w).
      * intros [?|[[= ?]|(z' & [= <-] & ?)]]; done.
Qed.

Lemma gate_rejects (z : Z) (un fn : option string) (text : string) (w : World) :
  fst (handleMessage_pairing (Some z) un fn text w) = false →
  let w' := snd (handleMessage_pairing (Some z) un fn text w) in
  is_Some (pendingApprovals w' !! Num z)
  ∧ pairedUsers w' = pairedUsers w
  ∧ (is_Some (pendingApprovals w !! Num z) → w' = w).
Proof.
  unfold handleMessage_pairing, hasPendingApproval.
  destruct (negb (z =? 0)%Z && negb (isUserPaired (Num z) w)); [|done].
  case_bool_decide as Hp; cbn [fst snd]; intros _.
  - done.
  - destruct (requestApproval_stores (Num z) un fn (Some text) w) as (Hpu & Hpe & _).
    done.
Qed.

End PairingMore.

(** X8: asking again for approval while a request is pending changes
    nothing: the first request, with its time and its first message, is the
    one that stays. *)
Theorem request_approval_keeps_first (E : Env) (u : number)
    (a b c a' b' c' : option string) (w : World) :
  requestApproval u a b c (requestApproval u a' b' c' w) = requestApproval u a' b' c' w.
Proof. apply requestApproval_again. Qed.

(** X9: [denyUser] returns [true] exactly when the user had a pending
    request; for a user without one it returns [false] and changes
    nothing, not even for a paired user. *)
Theorem deny_reports_pending (E : Env) (u : number) (w : World) :
  fst (denyUser E u w) = bool_decide (is_Some (pendingApprovals w !! u))
  ∧ (pendingApprovals w !! u = None → snd (denyUser E u w) = w).
Proof. apply denyUser_result. Qed.

(** X10: when a user without a pending request asks for access and is then
    approved, the paired record carries the user name and first name of the
    request and the approver, and the pending records are again what they
    were before the request. *)
Theorem approve_after_request_keeps_identity (E : Env) (u : number)
    (un fn msg approvedBy : option string) (w : World) :
  pendingApprovals w !! u = None →
  let w2 := snd (approveUser E u approvedBy (requestApproval u un fn msg w)) in
  pairedUsers w2 !! u
  = Some {| pu_userId := u; pu_username := un; pu_firstName := fn;
            pu_pairedAt := now w; pu_approvedBy := approvedBy |}
  ∧ pendingApprovals w2 = pendingApprovals w.
Proof. apply approve_after_request. Qed.

Lemma approve_after_request_keeps_identity_witness :
  pu_username <$> (pairedUsers
     (snd (approveUser Sample.env (Num 7) (Some "main")
             (requestApproval (Num 7) (Some "ann") None (Some "hi") Sample.world0)))
     !! Num 7) = Some (Some "ann").
Proof.
  destruct (approve_after_request_keeps_identity Sample.env (Num 7) (Some "ann") None
              (Some "hi") (Some "main") Sample.world0) as [Hp _].
  - apply lookup_empty.
  - cbv zeta in Hp. rewrite Hp. reflexivity.
Defined.

(** X11: the access check of [handleMessage] lets a message through only
    when the sender is paired (or the update names no sender, or the sender
    id is 0), and then changes nothing.  A message it stops leaves the sender
    with a pending request and the paired users as they were; when the
    request was pending already, nothing changes at all. *)
Theorem unpaired_sender_is_stopped (E : Env) (uid : option Z) (un fn : option string)
    (text : string) (w : World) :
  let r := handleMessage_pairing uid un fn text w in
  (fst r = true
   ↔ uid = None ∨ uid = Some 0%Z ∨ ∃ z, uid = Some z ∧ is_Some (pairedUsers w !! Num z))
  ∧ (fst r = true → snd r = w)
  ∧ (fst r = false →
     ∃ z, uid = Some z
          ∧ is_Some (pendingApprovals (snd r) !! Num z)
          ∧ pairedUsers (snd r) = pairedUsers w
          ∧ (is_Some (pendingApprovals w !! Num z) → snd r = w)).
Proof.
  intros r. subst r. split; [apply gate_admits|]. split.
  - unfold handleMessage_pairing. destruct uid as [z|]; [|done].
    destruct (negb (z =? 0)%Z && negb (isUserPaired (Num z) w)); [|done].
    by destruct (hasPendingApproval (Num z) w).
  - intros Hstop. destruct uid as [z|]; [|done].
    exists z. split; [done|]. by apply gate_rejects.
Qed.

Lemma unpaired_sender_is_stopped_witness :
  fst (handleMessage_pairing (Some 7%Z) (Some "ann") None "hi" Sample.world0) = false
  ∧ is_Some (pendingApprovals
               (snd (handleMessage_pairing (Some 7%Z) (Some "ann") None "hi" Sample.world0))
               !! Num 7).
Proof.
  destruct (unpaired_sender_is_stopped Sample.env (Some 7%Z) (Some "ann") None "hi"
              Sample.world0) as (_ & _ & Hstop).
  assert (Hf : fst (handleMessage_pairing (Some 7%Z) (Some "ann") None "hi" Sample.world0)
               = false) by (vm_compute; reflexivity).
  split; [exact Hf|].
  destruct (Hstop Hf) as (z & Hz & Hp & _). injection Hz as <-. exact Hp.
Defined.

(** X12: approving a user and unpairing the user again leaves the user
    neither paired nor pending, so that the next message of that user is
    stopped and files a new request. *)
Theorem unpaired_user_must_ask_again (E : Env) (z : Z) (approvedBy un fn : option string)
    (text : string) (w : World) :
  z ≠ 0%Z →
  let w2 := snd (unpairUser (Num z) (snd (approveUser E (Num z) approvedBy w))) in
  pairedUsers w2 !! Num z = None
  ∧ pendingApprovals w2 !! Num z = None
  ∧ fst (handleMessage_pairing (Some z) un fn text w2) = false
  ∧ is_Some (pendingApprovals (snd (handleMessage_pairing (Some z) un fn text w2)) !! Num z).
Proof.
  intros Hz w2.
  destruct (approveUser_stores E (Num z) approvedBy w) as ([p Hp] & Hnone & _).
  cbv zeta in Hp, Hnone.
  assert (Hpaired : pairedUsers w2 !! Num z = None).
  { subst w2. unfold unpairUser. rewrite Hp. cbn. apply lookup_delete_eq. }
  assert (Hpending : pendingApprovals w2 !! Num z = None).
  { subst w2. unfold unpairUser. rewrite Hp. cbn. exact Hnone. }
  split; [done|]. split; [done|].
  assert (Hstop : fst (handleMessage_pairing (Some z) un fn text w2) = false).
  { destruct (fst (handleMessage_pairing (Some z) un fn text w2)) eqn:Hadm; [|done].
    apply gate_admits in Hadm as [?|[[= ?]|(z' & [= <-] & [x Hx])]]; congruence. }
  split; [done|]. by apply gate_rejects.
Qed.

Lemma unpaired_user_must_ask_again_witness :
  fst (handleMessage_pairing (Some 7%Z) None None "hello"
         (snd (unpairUser (Num 7) (snd (approveUser Sample.env (Num 7) None Sample.world0)))))
  = false.
Proof.
  apply (unpaired_user_must_ask_again Sample.env 7 None None None "hello" Sample.world0).
  discriminate.
Defined.

(** ** Approvals through the mailbox *)

Lemma approval_request_equation (E : Env) (data : IpcData) (sourceGroup : string)
    (u : UserIdField) (w : World) :
  d_type data = Some "telegram_approve" →
  d_userId data = Some u →
  truthyUserId (Some u) = true →
  processTaskIpc E data sourceGroup true w
  = Normal (snd (approveUser E (NumberOf E u) (Some "main") w)).
Proof.
  intros Hty Hu Htruthy. unfold processTaskIpc. rewrite Hty, Hu, Htruthy.
  by cbn [same String.eqb Ascii.eqb Bool.eqb andb negb].
Qed.

Lemma approveUser_record (E : Env) (u : number) (by_ : option string) (w : World) :
  pu_approvedBy <$> pairedUsers (snd (approveUser E u by_ w)) !! u = Some by_.
Proof.
  unfold approveUser. cbn [snd].
  match goal with |- context [notifyUser E ?x ?t ?y] =>
    destruct (notifyUser_stores E x t y) as [-> _] end.
  destruct (pendingApprovals w !! u); cbn; by rewrite lookup_insert_eq.
Qed.

(** X13: a [telegram_approve] request of the elevated tenant with a user id
    (a number other than 0, or a non-empty string, read by [Number]) pairs
    that user with approver ["main"] and clears the user's pending request;
    the task table and the registry are not touched.  With the user id
    missing, 0 or empty, the approve and deny requests are ignored. *)
Theorem approve_request_pairs_user (E : Env) (data : IpcData) (sourceGroup : string)
    (w : World) :
  d_type data = Some "telegram_approve" ∨ d_type data = Some "telegram_deny" →
  (truthyUserId (d_userId data) = false →
   processTaskIpc E data sourceGroup true w = Normal w)
  ∧ (∀ u, d_type data = Some "telegram_approve" → d_userId data = Some u →
          truthyUserId (Some u) = true →
          ∃ w', processTaskIpc E data sourceGroup true w = Normal w'
                ∧ pu_approvedBy <$> pairedUsers w' !! NumberOf E u = Some (Some "main")
                ∧ pendingApprovals w' !! NumberOf E u = None
                ∧ tasks w' = tasks w
                ∧ registeredGroups w' = registeredGroups w).
Proof.
  intros Hty. split.
  - intros Hfalsy. unfold processTaskIpc. rewrite Hfalsy.
    destruct Hty as [-> | ->]; by cbn [same String.eqb Ascii.eqb Bool.eqb andb negb].
  - intros u Happ Hu Htruthy. eexists. split; [by apply approval_request_equation|].
    split; [apply approveUser_record|].
    destruct (approveUser_stores E (NumberOf E u) (Some "main") w) as (_ & Hnone & _).
    destruct (approveUser_files E (NumberOf E u) (Some "main") w) as (_ & _ & Ht & Hr & _).
    done.
Qed.

Lemma approve_request_pairs_user_witness :
  ∃ w', processTaskIpc Sample.env (Sample.userOp "telegram_approve" 7) "main" true
          Sample.world0 = Normal w'
        ∧ pu_approvedBy <$> pairedUsers w' !! Num 7 = Some (Some "main").
Proof.
  destruct (approve_request_pairs_user Sample.env (Sample.userOp "telegram_approve" 7)
              "main" Sample.world0 (or_introl eq_refl)) as [_ Happ].
  destruct (Happ (UidNumber 7) eq_refl eq_refl eq_refl) as (w' & Hrun & Hby & _).
  exists w'. split; [exact Hrun|exact Hby].
Defined.

(** ** Sending a text *)

Section SendingMore.

Context (E : Env).

Lemma append_assoc (a b c : string) : (a +:+ b) +:+ c = a +:+ (b +:+ c).
Proof. induction a as [|x a IH]; [done|]. by rewrite !append_cons, IH. Qed.

Lemma substring_length (s : string) (i n : nat) :
  String.length (String.substring i n s) = (n `min` (String.length s - i))%nat.
Proof.
  revert i n. induction s as [|c s IH]; intros i n.
  - rewrite substring_nil. cbn. lia.
  - destruct i as [|i]; cbn [String.substring String.length Nat.sub]; [|apply IH].
    destruct n as [|n]; cbn [String.length]; [done|].
    rewrite (IH 0%nat n), Nat.sub_0_r. lia.
Qed.

#[local] Opaque maxLen.

(** Whatever the API accepts, the loop sends an initial run of the
    slices, stops at the first refusal, and ends normally exactly when
    nothing is left. *)
Lemma sendChunks_prefix (fuel : nat) (chat : number) (text : string) (i : nat) (w : World) :
  (1 ≤ fuel)%nat →
  ((i < String.length text)%nat → (String.length text < fuel + i)%nat) →
  ∃ (new : list TelegramSend) (rest : string) (c : Completion),
    sendChunks E fuel chat text i w = Some c
    ∧ worldOf c = set_sent (sent w ++ new) w
    ∧ Forall (λ s, ts_chat s = chat) new
    ∧ foldr String.append "" (ts_text <$> new) +:+ rest
      = String.substring i (String.length text - i) text
    ∧ ((∃ u, c = Normal u) ↔ rest = "").
Proof.
  pose proof maxLen_pos as Hpos.
  revert i w. induction fuel as [|fuel IH]; intros i w Hfuel Hbound; [lia|].
  cbn [sendChunks].
  destruct (Nat.ltb_spec i (String.length text)) as [Hi|Hi].
  - destruct (telegramAccepts E chat (slice text i (i + maxLen)) false) eqn:Hacc.
    + destruct (IH (i + maxLen)%nat (deliver chat (slice text i (i + maxLen)) false w))
        as (new & rest & c & Hrun & Hw & Hall & Hcat & Hend); [lia|lia|].
      exists ({| ts_chat := chat; ts_text := slice text i (i + maxLen);
                 ts_markdown := false |} :: new), rest, c.
      split; [done|]. split; [|split; [|split]].
      * rewrite Hw. destruct w; cbn. by rewrite <- app_assoc.
      * by constructor.
      * rewrite fmap_cons. cbn [foldr ts_text]. rewrite append_assoc, Hcat.
        by apply slice_then_rest.
      * done.
    + exists [], (String.substring i (String.length text - i) text), (Thrown w).
      split; [done|]. split; [|split; [|split]].
      * destruct w; cbn. by rewrite app_nil_r.
      * constructor.
      * done.
      * split; [by intros [u [=]]|]. intros Hempty.
        pose proof (substring_length text i (String.length text - i)) as Hlen.
        rewrite Hempty in Hlen. cbn in Hlen. lia.
  - exists [], "", (Normal w). split; [done|]. split; [|split; [|split]].
    + destruct w; cbn. by rewrite app_nil_r.
    + constructor.
    + cbn. replace (String.length text - i)%nat with 0%nat by lia.
      pose proof (substring_length text i 0) as Hlen.
      destruct (String.substring i 0 text); [done|]. cbn in Hlen. lia.
    + split; [done|]. intros _. by eexists.
Qed.

Lemma sendTelegramMessage_prefix (chat : number) (text : string) (w : World) :
  let r := sendTelegramMessage E chat text w in
  ∃ (new : list TelegramSend) (rest : string),
    snd r = set_sent (sent w ++ new) w
    ∧ Forall (λ s, ts_chat s = chat) new
    ∧ foldr String.append "" (ts_text <$> new) +:+ rest = text
    ∧ (fst r = true → rest = "")
    ∧ (text ≠ "" → rest = "" → fst r = true)
    ∧ (bot w = false → new = [] ∧ fst r = false).
Proof.
  assert (Hnone : ∀ b, ∃ (new : list TelegramSend) (rest : string),
    w = set_sent (sent w ++ new) w
    ∧ Forall (λ s, ts_chat s = chat) new
    ∧ foldr String.append "" (ts_text <$> new) +:+ rest = text
    ∧ (false = true → rest = "")
    ∧ (text ≠ "" → rest = "" → false = true)
    ∧ (b = false → new = [] ∧ false = false)).
  { intros b. exists [], text. split; [destruct w; cbn; by rewrite app_nil_r|].
    split; [constructor|]. split; [done|]. split; [done|]. split; [congruence|done]. }
  assert (Hone : ∀ md, ∃ (new : list TelegramSend) (rest : string),
    deliver chat text md w = set_sent (sent w ++ new) w
    ∧ Forall (λ s, ts_chat s = chat) new
    ∧ foldr String.append "" (ts_text <$> new) +:+ rest = text
    ∧ (true = true → rest = "")
    ∧ (text ≠ "" → rest = "" → true = true)
    ∧ (true = false → new = [] ∧ true = false)).
  { intros md. exists [{| ts_chat := chat; ts_text := text; ts_markdown := md |}], "".
    split; [done|]. split; [by repeat constructor|].
    split; [cbn; by rewrite !append_nil_r|]. done. }
  cbv zeta. unfold sendTelegramMessage.
  destruct (bot w) eqn:Hbot; cbn [negb fst snd]; [|apply (Hnone false)].
  destruct (String.length text <=? maxLen)%nat.
  - destruct (telegramAccepts E chat text true); cbn [fst snd]; [apply Hone|].
    destruct (telegramAccepts E chat text false); cbn [fst snd]; [apply Hone|].
    apply (Hnone true).
  - destruct (sendChunks_prefix (S (String.length text)) chat text 0 w)
      as (new & rest & c & Hrun & Hw & Hall & Hcat & Hend); [lia|lia|].
    rewrite Hrun. rewrite Nat.sub_0_r, substring_all in Hcat.
    exists new, rest. destruct c as [u|u]; cbn [fst snd worldOf] in *.
    + split; [done|]. split; [done|]. split; [done|].
      split; [intros _; apply Hend; by eexists|]. split; [done|]. congruence.
    + split; [done|]. split; [done|]. split; [done|].
      split; [done|]. split; [|congruence].
      intros _ Hrest. apply Hend in Hrest as [? [=]].
Qed.

Lemma sendTelegramResponse_agrees (chat : number) (text : string) (w : World) :
  bot w = true →
  sendTelegramResponse E chat text w
  = (if fst (sendTelegramMessage E chat text w) then Normal else Thrown)
      (snd (sendTelegramMessage E chat text w)).
Proof.
  intros Hbot. unfold sendTelegramResponse, sendTelegramMessage. rewrite Hbot. cbn [negb].
  destruct (String.length text <=? maxLen)%nat.
  - by repeat case_match.
  - by destruct (sendChunks E (S (String.length text)) chat text 0 w) as [[u|u]|].
Qed.

End SendingMore.

(** X14: whatever the Telegram API does, [sendTelegramMessage] changes
    nothing but the list of sent messages, and what it adds goes to the
    given chat and spells an initial part of the text: the messages put
    together, followed by what was not sent, are the text.  It returns
    [true] only when nothing is left unsent (and, for a non-empty text,
    whenever nothing is left); without a started bot it sends nothing and
    returns [false]. *)
Theorem send_delivers_a_prefix (E : Env) (chat : number) (text : string) (w : World) :
  let r := sendTelegramMessage E chat text w in
  ∃ (new : list TelegramSend) (rest : string),
    snd r = set_sent (sent w ++ new) w
    ∧ Forall (λ s, ts_chat s = chat) new
    ∧ foldr String.append "" (ts_text <$> new) +:+ rest = text
    ∧ (fst r = true → rest = "")
    ∧ (text ≠ "" → rest = "" → fst r = true)
    ∧ (bot w = false → new = [] ∧ fst r = false).
Proof. apply sendTelegramMessage_prefix. Qed.

(** X15: with the bot started, [sendTelegramResponse] sends what
    [sendTelegramMessage] sends; it throws where the other returns [false]
    and ends normally where the other returns [true]. *)
Theorem response_agrees_with_message (E : Env) (chat : number) (text : string) (w : World) :
  bot w = true →
  sendTelegramResponse E chat text w
  = (if fst (sendTelegramMessage E chat text w) then Normal else Thrown)
      (snd (sendTelegramMessage E chat text w)).
Proof. apply sendTelegramResponse_agrees. Qed.

Lemma response_agrees_with_message_witness :
  sendTelegramResponse Sample.env (Num 42) "hello" Sample.world0
  = Normal (snd (sendTelegramMessage Sample.env (Num 42) "hello" Sample.world0)).
Proof.
  rewrite (response_agrees_with_message Sample.env (Num 42) "hello" Sample.world0).
  - reflexivity.
  - reflexivity.
Defined.

Section ChunkCount.

Context (E : Env).

#[local] Opaque maxLen.

Lemma ceil_step (r m : nat) :
  (0 < m)%nat → (0 < r)%nat →
  ((r + (m - 1)) `div` m = S ((r - m + (m - 1)) `div` m))%nat.
Proof.
  intros Hm Hr. destruct (decide (m ≤ r)%nat) as [Hle|Hlt].
  - replace (r + (m - 1))%nat with ((r - m + (m - 1)) + 1 * m)%nat by lia.
    rewrite Nat.div_add by lia. lia.
  - replace (r - m)%nat with 0%nat by lia.
    replace (r + (m - 1))%nat with ((r - 1) + 1 * m)%nat by lia.
    rewrite Nat.div_add by lia. rewrite !Nat.div_small by lia. lia.
Qed.

Lemma sendChunks_count (fuel : nat) (chat : number) (text : string) (i : nat) (w : World) :
  (∀ c, telegramAccepts E chat c false = true) →
  (1 ≤ fuel)%nat →
  ((i < String.length text)%nat → (String.length text < fuel + i)%nat) →
  ∃ new : list TelegramSend,
    sendChunks E fuel chat text i w = Some (Normal (set_sent (sent w ++ new) w))
    ∧ length new = ((String.length text - i + (maxLen - 1)) `div` maxLen)%nat.
Proof.
  intros Hacc. pose proof maxLen_pos as Hpos.
  revert i w. induction fuel as [|fuel IH]; intros i w Hfuel Hbound; [lia|].
  cbn [sendChunks].
  destruct (Nat.ltb_spec i (String.length text)) as [Hi|Hi].
  - rewrite Hacc.
    destruct (IH (i + maxLen)%nat (deliver chat (slice text i (i + maxLen)) false w))
      as (new & Hrun & Hlen); [lia|lia|].
    eexists (_ :: new). split.
    + rewrite Hrun. do 2 f_equal. destruct w; cbn. by rewrite <- app_assoc.
    + cbn [length]. rewrite Hlen. rewrite (ceil_step (String.length text - i)) by lia.
      do 2 f_equal. lia.
  - exists []. split; [do 2 f_equal; destruct w; cbn; by rewrite app_nil_r|].
    replace (String.length text - i)%nat with 0%nat by lia.
    cbn [length Nat.add]. by rewrite Nat.div_small by lia.
Qed.

Lemma long_text_chunks (chat : number) (text : string) (w : World) :
  bot w = true →
  (∀ c md, telegramAccepts E chat c md = true) →
  (maxLen < String.length text)%nat →
  ∃ new : list TelegramSend,
    sendTelegramMessage E chat text w = (true, set_sent (sent w ++ new) w)
    ∧ length new = ((String.length text + (maxLen - 1)) `div` maxLen)%nat
    ∧ ∀ k p, (ts_text <$> new) !! k = Some p →
        String.length p = (maxLen `min` (String.length text - k * maxLen))%nat
        ∧ (0 < String.length p)%nat.
Proof.
  intros Hbot Hacc Hlong. pose proof maxLen_pos as Hpos.
  destruct (sendChunks_count (S (String.length text)) chat text 0 w)
    as (new & Hrun & Hlen); [done|lia|lia|].
  destruct (sendChunks_all_accepted E (S (String.length text)) chat text 0 w)
    as (new' & Hrun' & _ & _ & Hidx); [done|lia|lia|].
  rewrite Hrun in Hrun'. injection Hrun' as Heq. apply app_inv_head in Heq. subst new'.
  exists new. split; [|split].
  - unfold sendTelegramMessage. rewrite Hbot. cbn [negb].
    destruct (Nat.leb_spec (String.length text) maxLen); [lia|]. by rewrite Hrun.
  - by rewrite Hlen, Nat.sub_0_r.
  - intros k p Hk. pose proof (lookup_lt_Some _ _ _ Hk) as Hlt.
    rewrite length_fmap, Hlen, Nat.sub_0_r in Hlt.
    apply Hidx in Hk as ->. rewrite !Nat.add_0_l. unfold slice.
    replace (k * maxLen + maxLen - k * maxLen)%nat with maxLen by lia.
    rewrite substring_length.
    assert (k * maxLen < String.length text)%nat; [|lia].
    assert (Hk1 : (maxLen * S k ≤ String.length text + (maxLen - 1))%nat).
    { etrans; [|apply (Nat.Div0.mul_div_le _ maxLen)]. apply Nat.mul_le_mono_l. lia. }
    nia.
Qed.

End ChunkCount.

(** X16: a text of more than 4000 characters that the API accepts goes
    out in ceil(length / 4000) messages; the k-th has 4000 characters, or
    what is left of the text when that is less, and none is empty. *)
Theorem long_text_message_count (E : Env) (chat : number) (text : string) (w : World) :
  bot w = true →
  (∀ c md, telegramAccepts E chat c md = true) →
  (4000 < String.length text)%nat →
  ∃ new : list TelegramSend,
    sendTelegramMessage E chat text w = (true, set_sent (sent w ++ new) w)
    ∧ length new = ((String.length text + 3999) `div` 4000)%nat
    ∧ ∀ k p, (ts_text <$> new) !! k = Some p →
        String.length p = (4000 `min` (String.length text - k * 4000))%nat
        ∧ (0 < String.length p)%nat.
Proof.
  change 3999%nat with (maxLen - 1)%nat. change 4000%nat with maxLen.
  apply long_text_chunks.
Qed.

Lemma long_text_message_count_witness :
  let text := String.string_of_list_ascii (replicate (4000 + 4000 + 1) "a"%char) in
  ∃ new, sendTelegramMessage Sample.env (Num 42) text Sample.world0
         = (true, set_sent (sent Sample.world0 ++ new) Sample.world0)
         ∧ length new = 3%nat.
Proof.
  intros text.
  destruct (long_text_message_count Sample.env (Num 42) text Sample.world0)
    as (new & Hrun & Hlen & _).
  - reflexivity.
  - reflexivity.
  - vm_compute. lia.
  - exists new. split; [exact Hrun|]. rewrite Hlen. vm_compute. reflexivity.
Defined.

(** ** Whole passes of the drainer *)

Section Passes.

Context (E : Env).

(** An invariant of the iterations of a pass holds for the pass.  The
    iterations are over entries that are on disk, are named [*.json], and lie
    outside the errors directory. *)
Lemma pass_invariant (w0 : World) (R : World → Prop) :
  R w0 →
  (∀ g k file w w',
     drains E w0 w → R w →
     g ≠ "errors" → endsWith ".json" file = true →
     is_Some (fs w !! entryPath g k file) →
     processEntry E g k (String.eqb g (MAIN_GROUP_FOLDER E)) file w = Continue w' →
     R w') →
  R (processIpcFiles E w0).
Proof.
  intros Hstart Hstep.
  assert (Hfiles : ∀ g k names w,
    g ≠ "errors" → NoDup names →
    (∀ f, f ∈ names → is_Some (fs w !! entryPath g k f) ∧ endsWith ".json" f = true) →
    drains E w0 w ∧ R w →
    drains E w0 (drainFiles E g k (String.eqb g (MAIN_GROUP_FOLDER E)) names w)
    ∧ R (drainFiles E g k (String.eqb g (MAIN_GROUP_FOLDER E)) names w)).
  { intros g k names w Hg Hnd. revert w.
    induction Hnd as [|file rest Hfile Hnd IH]; intros w Hthere [Hd Hr]; cbn [drainFiles];
      [done|].
    destruct (Hthere file) as [Hpresent Hjson]; [by left|].
    destruct (processEntry_drains E g k file w Hg Hpresent) as (w1 & Hrun & Hd1 & _ & Hrest).
    rewrite Hrun. apply IH.
    - intros f Hf. destruct (Hthere f) as [Hp Hj]; [by right|]. split; [|done].
      rewrite Hrest; [done| |done]. intros [= ->]. done.
    - split; [by eapply drains_trans|]. eapply Hstep; eauto. }
  assert (Hdir : ∀ g k w, g ≠ "errors" → drains E w0 w ∧ R w →
    drains E w0 (drainDir E g k (String.eqb g (MAIN_GROUP_FOLDER E)) w)
    ∧ R (drainDir E g k (String.eqb g (MAIN_GROUP_FOLDER E)) w)).
  { intros g k w Hg Hinv. unfold drainDir. apply Hfiles; [done|apply jsonFiles_NoDup| |done].
    intros f Hf. by apply jsonFiles_spec in Hf. }
  assert (Hgroups : ∀ gs w, (∀ g, g ∈ gs → g ≠ "errors") → drains E w0 w ∧ R w →
    drains E w0 (foldl (λ w' g, processGroup E g w') w gs)
    ∧ R (foldl (λ w' g, processGroup E g w') w gs)).
  { induction gs as [|g gs IH]; intros w Hgs Hinv; cbn [foldl]; [done|].
    apply IH; [intros g' Hg'; apply Hgs; by right|].
    unfold processGroup. apply Hdir; [apply Hgs; by left|].
    apply Hdir; [apply Hgs; by left|done]. }
  apply Hgroups; [apply groupFolders_not_errors|]. split; [apply drains_refl|done].
Qed.




End Passes.





Section Exhaustive.

Context (E : Env).

Lemma subdirs_spec (f : gmap (list string) string) (p : list string) (g : string) :
  is_Some (f !! p) → (1 < length p)%nat → p !! 0%nat = Some g → g ∈ subdirs [] f.
Proof.
  intros [b Hb] Hlen Hg. unfold subdirs. apply elem_of_remove_dups, list_elem_of_omap.
  exists p. split.
  - apply list_elem_of_fmap. exists (p, b). split; [done|]. by apply elem_of_map_to_list.
  - cbn [length Nat.add]. destruct (Nat.ltb_spec 1 (length p)); [|lia].
    unfold entryUnder. cbn [length take]. by rewrite bool_decide_eq_true_2.
Qed.

Lemma groupFolders_spec (f : gmap (list string) string) (g : string) (k : MailboxKind)
    (file : string) :
  g ≠ "errors" → is_Some (f !! entryPath g k file) → g ∈ groupFolders f.
Proof.
  intros Hg Hfile. unfold groupFolders. apply list_elem_of_In, filter_In. split.
  - apply list_elem_of_In.
    apply (subdirs_spec f (entryPath g k file)); [done|cbn; lia|done].
  - by destruct (String.eqb_spec g "errors").
Qed.

Lemma gone_stays_gone (w w' : World) (p : list string) :
  drains E w w' → length p = 3%nat → fs w !! p = None → fs w' !! p = None.
Proof.
  intros (_ & _ & Hmono & _) Hlen Hnone.
  destruct (fs w' !! p) as [b|] eqn:Hb; [|done]. apply Hmono in Hb; [congruence|done].
Qed.

Lemma drainFiles_clears (g : string) (k : MailboxKind) (names : list string) (w : World) :
  g ≠ "errors" → NoDup names →
  (∀ f, f ∈ names → is_Some (fs w !! entryPath g k f)) →
  ∀ f, f ∈ names →
    fs (drainFiles E g k (String.eqb g (MAIN_GROUP_FOLDER E)) names w) !! entryPath g k f
    = None.
Proof.
  intros Hg Hnd. revert w.
  induction Hnd as [|file rest Hfile Hnd IH]; intros w Hthere f Hf; cbn [drainFiles].
  { by apply not_elem_of_nil in Hf. }
  destruct (processEntry_drains E g k file w Hg) as (w1 & -> & _ & Hgone & Hrest).
  { apply Hthere. by left. }
  assert (Hthere1 : ∀ f', f' ∈ rest → is_Some (fs w1 !! entryPath g k f')).
  { intros f' Hf'. rewrite Hrest; [apply Hthere; by right| |done]. intros [= ->]. done. }
  apply elem_of_cons in Hf as [->|Hf]; [|by apply IH].
  eapply gone_stays_gone; [|done|exact Hgone].
  by apply drainFiles_drains.
Qed.

Lemma drainDir_clears (g : string) (k : MailboxKind) (w : World) (f : string) :
  g ≠ "errors" → endsWith ".json" f = true →
  fs (drainDir E g k (String.eqb g (MAIN_GROUP_FOLDER E)) w) !! entryPath g k f = None.
Proof.
  intros Hg Hjson.
  destruct (fs w !! entryPath g k f) as [b|] eqn:Hb.
  - unfold drainDir. apply drainFiles_clears; [done|apply jsonFiles_NoDup| |].
    + intros f' Hf'. by apply jsonFiles_spec in Hf' as [? _].
    + apply jsonFiles_spec. split; [by eexists|done].
  - eapply gone_stays_gone; [by apply drainDir_drains|done|done].
Qed.

Lemma processGroup_clears (g : string) (w : World) (k : MailboxKind) (f : string) :
  g ≠ "errors" → endsWith ".json" f = true →
  fs (processGroup E g w) !! entryPath g k f = None.
Proof.
  intros Hg Hjson. unfold processGroup. destruct k.
  - eapply gone_stays_gone; [by apply drainDir_drains|done|by apply drainDir_clears].
  - by apply drainDir_clears.
Qed.

Lemma pass_clears (w : World) (p : list string) :
  drainable p → fs (processIpcFiles E w) !! p = None.
Proof.
  intros (g & k & f & -> & Hg & Hjson).
  destruct (decide (g ∈ groupFolders (fs w))) as [Hin|Hout].
  - unfold processIpcFiles.
    assert (Hgs : ∀ g', g' ∈ groupFolders (fs w) → g' ≠ "errors")
      by apply groupFolders_not_errors.
    revert Hin Hgs. generalize (groupFolders (fs w)) as gs. intros gs. revert w.
    induction gs as [|g' gs IH]; intros w Hin Hgs; [by apply not_elem_of_nil in Hin|].
    cbn [foldl].
    destruct (decide (g ∈ gs)) as [Hlater|Hnot].
    + apply IH; [done|]. intros x Hx. apply Hgs. by right.
    + apply elem_of_cons in Hin as [<-|Hin]; [|done].
      assert (Hrest : ∀ w1, drains E w1 (foldl (λ w' g0, processGroup E g0 w') w1 gs)).
      { assert (Hgs' : ∀ x, x ∈ gs → x ≠ "errors") by (intros x Hx; apply Hgs; by right).
        clear -Hgs'. induction gs as [|x gs IH]; intros w1; cbn [foldl];
          [apply drains_refl|].
        eapply drains_trans; [apply processGroup_drains; apply Hgs'; by left|].
        apply IH. intros y Hy. apply Hgs'. by right. }
      eapply gone_stays_gone; [apply Hrest|done|by apply processGroup_clears].
  - eapply gone_stays_gone; [apply processIpcFiles_drains|done|].
    destruct (fs w !! entryPath g k f) as [b|] eqn:Hb; [|done].
    exfalso. apply Hout. apply (groupFolders_spec _ g k f); [done|by eexists].
Qed.

(** A pass over mailboxes without entries does nothing at all. *)
Lemma pass_nothing_to_do (w : World) :
  (∀ p, drainable p → fs w !! p = None) → processIpcFiles E w = w.
Proof.
  intros Hnone. unfold processIpcFiles.
  assert (Hgs : ∀ g, g ∈ groupFolders (fs w) → g ≠ "errors")
    by apply groupFolders_not_errors.
  revert Hgs. generalize (groupFolders (fs w)) as gs.
  induction gs as [|g gs IH]; intros Hgs; cbn [foldl]; [done|].
  assert (Hempty : ∀ k, jsonFiles g k (fs w) = []).
  { intros k. destruct (jsonFiles g k (fs w)) as [|x l] eqn:Hl; [done|].
    assert (Hx : x ∈ jsonFiles g k (fs w)) by (rewrite Hl; by left).
    apply jsonFiles_spec in Hx as [[b Hb] Hjson].
    rewrite Hnone in Hb; [done|]. exists g, k, x. split; [done|]. split; [|done].
    apply Hgs. by left. }
  assert (Hg : processGroup E g w = w).
  { unfold processGroup, drainDir. rewrite Hempty. cbn [drainFiles]. by rewrite Hempty. }
  rewrite Hg. apply IH. intros x Hx. apply Hgs. by right.
Qed.

End Exhaustive.



(** X20: a second pass right after a pass finds nothing to do: it changes
    neither the files, nor the stores, nor the trace. *)
Theorem second_pass_is_idle (E : Env) (w : World) :
  processIpcFiles E (processIpcFiles E w) = processIpcFiles E w.
Proof. apply pass_nothing_to_do. intros p. apply pass_clears. Qed.

Section PassBoundary.

Context (E : Env).

(** The state after a non-elevated iteration, up to files and trace. *)
Lemma processEntry_non_elevated (g : string) (k : MailboxKind) (file : string)
    (w w' : World) :
  is_Some (fs w !! entryPath g k file) →
  processEntry E g k false file w = Continue w' →
  registeredGroups w' = registeredGroups w
  ∧ groupDirs w' = groupDirs w
  ∧ pairedUsers w' = pairedUsers w
  ∧ pendingApprovals w' = pendingApprovals w
  ∧ sent w' = sent w
  ∧ ∀ id, tasks w' !! id ≠ tasks w !! id →
      (∀ t, tasks w !! id = Some t → t_group_folder t = g)
      ∧ (∀ t, tasks w' !! id = Some t → t_group_folder t = g).
Proof.
  intros [body Hbody]. rewrite (processEntry_present E g k false file body w Hbody).
  destruct (JSON_parse E body) as [| |data]; [by intros [= <-]..|].
  destruct k; cbn [handleEntry].
  - rewrite processMessageIpc_blocked by (by left). by intros [= <-].
  - pose proof (processTaskIpc_non_elevated E data g
                  (emit (EvElevation g Tasks file false) w)) as Hh.
    cbv zeta in Hh.
    destruct (processTaskIpc E data g false _) as [w1|w1]; intros [= <-]; exact Hh.
Qed.

Lemma pass_without_elevated (w0 : World) :
  (∀ k f, endsWith ".json" f = true →
          fs w0 !! entryPath (MAIN_GROUP_FOLDER E) k f = None) →
  let w' := processIpcFiles E w0 in
  registeredGroups w' = registeredGroups w0
  ∧ groupDirs w' = groupDirs w0
  ∧ pairedUsers w' = pairedUsers w0
  ∧ pendingApprovals w' = pendingApprovals w0
  ∧ sent w' = sent w0
  ∧ ∀ id, tasks w' !! id ≠ tasks w0 !! id →
      (∀ t, tasks w0 !! id = Some t → t_group_folder t ≠ MAIN_GROUP_FOLDER E)
      ∧ (∀ t, tasks w' !! id = Some t → t_group_folder t ≠ MAIN_GROUP_FOLDER E).
Proof.
  intros Hmain.
  apply (pass_invariant E w0 (λ w,
    registeredGroups w = registeredGroups w0
    ∧ groupDirs w = groupDirs w0
    ∧ pairedUsers w = pairedUsers w0
    ∧ pendingApprovals w = pendingApprovals w0
    ∧ sent w = sent w0
    ∧ ∀ id, tasks w !! id ≠ tasks w0 !! id →
        (∀ t, tasks w0 !! id = Some t → t_group_folder t ≠ MAIN_GROUP_FOLDER E)
        ∧ (∀ t, tasks w !! id = Some t → t_group_folder t ≠ MAIN_GROUP_FOLDER E))).
  { do 5 (split; [done|]). by intros id Hne. }
  intros g k file w w' Hd (Hr & Hg & Hpu & Hpe & Hs & Ht) Hne Hjson Hpresent Hrun.
  assert (Hnotmain : g ≠ MAIN_GROUP_FOLDER E).
  { intros ->. destruct Hpresent as [b Hb]. destruct Hd as (_ & _ & Hmono & _).
    apply Hmono in Hb; [|done]. by rewrite Hmain in Hb. }
  apply String.eqb_neq in Hnotmain as Heqb. rewrite Heqb in Hrun.
  destruct (processEntry_non_elevated g k file w w' Hpresent Hrun)
    as (Hr' & Hg' & Hpu' & Hpe' & Hs' & Ht').
  split; [congruence|]. split; [congruence|]. split; [congruence|].
  split; [congruence|]. split; [congruence|].
  intros id Hdiff.
  destruct (decide (tasks w' !! id = tasks w !! id)) as [Hsame|Hchanged].
  - rewrite Hsame in Hdiff |- *. exact (Ht id Hdiff).
  - destruct (Ht' id Hchanged) as [Hold Hnew]. split.
    + intros t Ht0. destruct (decide (tasks w !! id = tasks w0 !! id)) as [Heq|Hneq].
      * rewrite <- Heq in Ht0. by rewrite (Hold t Ht0).
      * destruct (Ht id Hneq) as [H0 _]. by apply H0.
    + intros t Ht1. by rewrite (Hnew t Ht1).
Qed.

End PassBoundary.

(** X21: a pass in which the elevated tenant's mailbox holds no entry sends
    no message, leaves the registry, the group folders and the pairing
    store as they are, and neither adds, changes nor removes a task of the
    elevated tenant -- whatever the other tenants have put into their
    mailboxes. *)
Theorem pass_without_elevated_entries (E : Env) (w : World) :
  (∀ k f, endsWith ".json" f = true →
          fs w !! entryPath (MAIN_GROUP_FOLDER E) k f = None) →
  let w' := processIpcFiles E w in
  registeredGroups w' = registeredGroups w
  ∧ groupDirs w' = groupDirs w
  ∧ pairedUsers w' = pairedUsers w
  ∧ pendingApprovals w' = pendingApprovals w
  ∧ sent w' = sent w
  ∧ ∀ id, tasks w' !! id ≠ tasks w !! id →
      (∀ t, tasks w !! id = Some t → t_group_folder t ≠ MAIN_GROUP_FOLDER E)
      ∧ (∀ t, tasks w' !! id = Some t → t_group_folder t ≠ MAIN_GROUP_FOLDER E).
Proof. apply pass_without_elevated. Qed.

Lemma pass_without_elevated_entries_witness :
  let w := set_tasks {["t1" := Sample.task1]}
             (set_fs {[ ["family"; "tasks"; "c.json"] := "{type:cancel_task,taskId:t1}";
                        ["family"; "tasks"; "a.json"] := "{type:telegram_approve,userId:7}";
                        ["family"; "messages"; "m.json"]
                          := "{type:message,chatJid:tg:42,text:hello}" ]}
                Sample.world0) in
  sent (processIpcFiles Sample.env w) = [] ∧ pairedUsers (processIpcFiles Sample.env w) = ∅.
Proof.
  intros w.
  destruct (pass_without_elevated_entries Sample.env w) as (_ & _ & Hpu & _ & Hs & _).
  - intros k f _. unfold w, entryPath. cbn [fs set_tasks set_fs MAIN_GROUP_FOLDER Sample.env].
    rewrite !lookup_insert_ne by (intros [=]). apply lookup_singleton_ne. intros [=].
  - split; [exact Hs|exact Hpu].
Defined.

(** ** Chat ids as text *)

Section Decimal.

Ltac eval_digit :=
  match goal with
  | |- context [digitValue ?c] =>
      let v := eval vm_compute in (digitValue c) in change (digitValue c) with v
  end.

Lemma readDigits_acc (d : Decimal.uint) (p : positive) :
  readDigits (Some (Z.pos p)) (NilEmpty.string_of_uint d)
  = Some (Z.pos (Pos.of_uint_acc d p)).
Proof.
  revert p. induction d; intros p; cbn [NilEmpty.string_of_uint Pos.of_uint_acc readDigits];
    [done|..]; eval_digit; cbv iota; cbn [default];
    rewrite <- IHd; do 2 f_equal; unfold id; lia.
Qed.

Lemma readDigits_zero (d : Decimal.uint) :
  readDigits (Some 0%Z) (NilEmpty.string_of_uint d) = Some (Z.of_N (Pos.of_uint d)).
Proof.
  induction d; cbn [NilEmpty.string_of_uint Pos.of_uint readDigits]; [done|..];
    eval_digit; cbv iota; cbn [default]; unfold id;
    [exact IHd|apply (readDigits_acc d)..].
Qed.

Lemma readDigits_uint (d : Decimal.uint) :
  d ≠ Decimal.Nil →
  readDigits None (NilEmpty.string_of_uint d) = Some (Z.of_N (Pos.of_uint d)).
Proof.
  destruct d; [done|..]; intros _; cbn [NilEmpty.string_of_uint Pos.of_uint readDigits];
    eval_digit; cbv iota; cbn [default]; unfold id;
    [apply readDigits_zero|apply (readDigits_acc d)..].
Qed.

(** A string of digits starts with no white space and no sign. *)
Lemma parseInt_digits (d : Decimal.uint) :
  d ≠ Decimal.Nil →
  parseInt (NilEmpty.string_of_uint d) = Num (Z.of_N (Pos.of_uint d))
  ∧ parseInt (String "-" (NilEmpty.string_of_uint d)) = Num (- Z.of_N (Pos.of_uint d)).
Proof.
  intros Hd. pose proof (readDigits_uint d Hd) as Hread.
  unfold parseInt. cbn [skipWhiteSpace].
  change (isWhiteSpace "-") with false. cbv iota. rewrite Hread. split; [|done].
  destruct d; [done|..]; cbn [NilEmpty.string_of_uint skipWhiteSpace] in *;
    match goal with |- context [isWhiteSpace ?c] => change (isWhiteSpace c) with false end;
    cbv iota; by rewrite Hread.
Qed.

Lemma parseInt_showZ (z : Z) : parseInt (showZ z) = Num z.
Proof.
  unfold showZ. destruct z as [|p|p]; cbn [Z.to_int NilZero.string_of_int].
  - reflexivity.
  - pose proof (DecimalPos.Unsigned.to_uint_nonnil p) as Hnn.
    destruct (parseInt_digits (Pos.to_uint p) Hnn) as [Hpos _].
    rewrite DecimalPos.Unsigned.of_to in Hpos.
    unfold NilZero.string_of_uint. by destruct (Pos.to_uint p).
  - pose proof (DecimalPos.Unsigned.to_uint_nonnil p) as Hnn.
    destruct (parseInt_digits (Pos.to_uint p) Hnn) as [_ Hneg].
    rewrite DecimalPos.Unsigned.of_to in Hneg.
    unfold NilZero.string_of_uint. by destruct (Pos.to_uint p).
Qed.

Lemma showZ_inj (a b : Z) : showZ a = showZ b → a = b.
Proof.
  intros Heq. apply (f_equal parseInt) in Heq. rewrite !parseInt_showZ in Heq. congruence.
Qed.

End Decimal.

(** ** Destinations *)

Section Destinations.

Context (E : Env).




Lemma chatKey_inj (a b : Z) : chatKey a = chatKey b → a = b.
Proof. unfold chatKey. intros H. apply String.app_inj in H. by apply showZ_inj. Qed.



End Destinations.


(** ** Chats and their folders *)

Section ChatFolders.

Context (E : Env) (unified : bool).

Lemma getGroupFolder_registered (now : Z) (chatId : Z) (chatType : string)
    (title username : option string) (s : ChatStore) (g : RegisteredGroup) :
  objGet (chatKey chatId) (chats s) = Some g →
  getGroupFolder E unified now chatId chatType title username s = (g_folder g, s).
Proof. intros H. unfold getGroupFolder. by rewrite H. Qed.

Lemma getGroupFolder_stable (now : Z) (chatId : Z) (chatType : string)
    (title username : option string) (s : ChatStore) :
  let r := getGroupFolder E unified now chatId chatType title username s in
  is_Some (objGet (chatKey chatId) (chats (snd r))) →
  ∀ now' chatType' title' username',
    getGroupFolder E unified now' chatId chatType' title' username' (snd r) = r.
Proof.
  intros r [g Hg] now' ty' title' un'. rewrite (getGroupFolder_registered _ _ _ _ _ _ g Hg).
  subst r. unfold getGroupFolder in *.
  destruct (objGet (chatKey chatId) (chats s)) as [g0|] eqn:Hs.
  { cbn [snd] in Hg. by rewrite Hs in Hg; injection Hg as ->. }
  destruct (String.eqb chatType "private").
  - destruct unified; cbn [snd] in Hg; [congruence|].
    cbn [chats autoRegister] in Hg. rewrite objGet_objSet_eq in Hg. by injection Hg as <-.
  - destruct (String.eqb chatType "group" || String.eqb chatType "supergroup");
      cbn [snd] in Hg; [|congruence].
    cbn [chats autoRegister] in Hg. rewrite objGet_objSet_eq in Hg. by injection Hg as <-.
Qed.

Lemma getGroupFolder_other (now : Z) (a b : Z) (chatType : string)
    (title username : option string) (s : ChatStore) :
  a ≠ b →
  objGet (chatKey b) (chats (snd (getGroupFolder E unified now a chatType title username s)))
  = objGet (chatKey b) (chats s).
Proof.
  intros Hab. assert (Hk : chatKey b ≠ chatKey a).
  { intros Heq. apply chatKey_inj in Heq. congruence. }
  unfold getGroupFolder. repeat case_match; cbn [snd chats autoRegister]; try done.
  all: by apply objGet_objSet_ne.
Qed.

End ChatFolders.

(** X23: once a chat is registered -- by the call itself, for a group chat
    or a private chat outside the unified main channel, or before it --
    every later [getGroupFolder] for that chat returns the same folder and
    changes nothing, whatever chat type, title or user name it is given. *)
Theorem chat_folder_is_stable (E : Env) (unified : bool) (now : Z) (chatId : Z)
    (chatType : string) (title username : option string) (s : ChatStore) :
  let r := getGroupFolder E unified now chatId chatType title username s in
  is_Some (objGet (chatKey chatId) (chats (snd r))) →
  ∀ now' chatType' title' username',
    getGroupFolder E unified now' chatId chatType' title' username' (snd r) = r.
Proof. apply getGroupFolder_stable. Qed.

Lemma chat_folder_is_stable_witness :
  let s0 := {| chats := []; chatDirs := ∅ |} in
  let r := getGroupFolder Sample.env false 0 (-5) "group" (Some "Fam Chat") None s0 in
  getGroupFolder Sample.env false 9 (-5) "private" (Some "Renamed") (Some "ann") (snd r) = r.
Proof.
  intros s0 r.
  apply (chat_folder_is_stable Sample.env false 0 (-5) "group" (Some "Fam Chat") None s0).
  vm_compute. by eexists.
Defined.

(** X24: registering a chat with [registerTelegramChat] makes
    [getGroupFolder] return the registered folder for it, without further
    change; and neither function touches the registration of any other
    chat. *)
Theorem registered_chat_is_found (E : Env) (unified : bool) (now now' : Z) (a b : Z)
    (name folder trigger chatType : string) (title username : option string)
    (s : ChatStore) :
  let s1 := registerTelegramChat now a name folder trigger s in
  getGroupFolder E unified now' a chatType title username s1 = (folder, s1)
  ∧ (a ≠ b →
     objGet (chatKey b) (chats s1) = objGet (chatKey b) (chats s)
     ∧ objGet (chatKey b)
         (chats (snd (getGroupFolder E unified now' a chatType title username s)))
       = objGet (chatKey b) (chats s)).
Proof.
  intros s1. split.
  - unfold getGroupFolder, s1, registerTelegramChat. cbn [chats].
    by rewrite objGet_objSet_eq.
  - intros Hab. split; [|by apply getGroupFolder_other].
    unfold s1, registerTelegramChat. cbn [chats]. apply objGet_objSet_ne.
    intros Heq. apply chatKey_inj in Heq. congruence.
Qed.

(** ** Folder names *)

Section FolderNames.


Lemma allChars_substring (p : ascii → bool) (s : string) (i n : nat) :
  allChars p s = true → allChars p (String.substring i n s) = true.
Proof.
  revert i n. induction s as [|c s IH]; intros i n Hs.
  - by rewrite substring_nil.
  - cbn [allChars] in Hs. apply andb_prop in Hs as [Hc Hs].
    destruct i as [|i]; cbn [String.substring]; [|by apply IH].
    destruct n as [|n]; [done|]. cbn [allChars]. by rewrite Hc, (IH 0%nat n).
Qed.

Lemma replaceNonAlnumRuns_chars (inRun : bool) (s : string) :
  allChars isFolderChar (replaceNonAlnumRuns inRun s) = true.
Proof.
  revert inRun. induction s as [|c s IH]; intros inRun; [done|].
  cbn [replaceNonAlnumRuns]. destruct (isLowerAlnum c) eqn:Hc.
  - cbn [allChars]. unfold isFolderChar at 1. by rewrite Hc, IH.
  - destruct inRun; [apply IH|]. cbn [allChars]. by rewrite IH.
Qed.

Lemma dropLeadingDash_other (c : ascii) (s : string) :
  c ≠ "-"%char → dropLeadingDash (String c s) = String c s.
Proof.
  intros Hne. unfold dropLeadingDash.
  destruct c as [[] [] [] [] [] [] [] []]; try done.
Qed.

Lemma dropLeadingDash_chars (p : ascii → bool) (s : string) :
  allChars p s = true → allChars p (dropLeadingDash s) = true.
Proof.
  destruct s as [|c s]; [done|]. intros H.
  destruct (decide (c = "-"%char)) as [->|Hne].
  - cbn [allChars] in H. by apply andb_prop in H as [_ Hs].
  - by rewrite dropLeadingDash_other.
Qed.

Lemma dropTrailingDash_chars (p : ascii → bool) (s : string) :
  allChars p s = true → allChars p (dropTrailingDash s) = true.
Proof.
  induction s as [|c s IH]; [done|]. intros H.
  cbn [allChars] in H. apply andb_prop in H as [Hc Hs].
  cbn [dropTrailingDash]. destruct s as [|c' s].
  - destruct (Ascii.eqb c "-"); [done|]. cbn [allChars]. by rewrite Hc.
  - cbn [allChars]. rewrite Hc. by apply IH.
Qed.

Lemma startsWith_dash_cons (c : ascii) (s : string) :
  startsWith "-" (String c s) = Ascii.eqb c "-".
Proof.
  unfold startsWith. cbn [String.prefix].
  destruct (ascii_dec "-" c) as [<-|Hne]; [by destruct s|].
  symmetry. apply Ascii.eqb_neq. congruence.
Qed.

Lemma startsWith_dash (s : string) :
  startsWith "-" s = false ↔ ∀ t, s ≠ String "-" t.
Proof.
  destruct s as [|c s]; [split; [by intros _ t|done]|].
  rewrite startsWith_dash_cons. rewrite Ascii.eqb_neq. split.
  - intros Hne t [= ? ?]. congruence.
  - intros H ->. by apply (H s).
Qed.

(** Inside a run, the replacement goes on with a letter or digit, or ends. *)
Lemma replaceNonAlnumRuns_inRun (s : string) :
  startsWith "-" (replaceNonAlnumRuns true s) = false.
Proof.
  induction s as [|c s IH]; [done|]. cbn [replaceNonAlnumRuns].
  destruct (isLowerAlnum c) eqn:Hc; [|done].
  rewrite startsWith_dash_cons. apply Ascii.eqb_neq. intros ->. discriminate.
Qed.

Lemma dropLeadingDash_replaced (s : string) :
  startsWith "-" (dropLeadingDash (replaceNonAlnumRuns false s)) = false.
Proof.
  destruct s as [|c s]; [done|]. cbn [replaceNonAlnumRuns].
  destruct (isLowerAlnum c) eqn:Hc.
  - assert (Hne : c ≠ "-"%char) by (intros ->; discriminate).
    rewrite (dropLeadingDash_other _ _ Hne), startsWith_dash_cons.
    by apply Ascii.eqb_neq.
  - cbn [dropLeadingDash]. apply replaceNonAlnumRuns_inRun.
Qed.

Lemma dropTrailingDash_leading (s : string) :
  startsWith "-" s = false → startsWith "-" (dropTrailingDash s) = false.
Proof.
  rewrite !startsWith_dash. intros Hs t Ht.
  destruct s as [|c s]; [done|]. cbn [dropTrailingDash] in Ht.
  destruct s as [|c' s].
  - destruct (Ascii.eqb c "-"); [done|]. by apply (Hs t).
  - injection Ht as -> _. by apply (Hs (String c' s)).
Qed.

Lemma substring_leading (s : string) (n : nat) :
  startsWith "-" s = false → startsWith "-" (String.substring 0 n s) = false.
Proof.
  rewrite !startsWith_dash. intros Hs t Ht.
  destruct s as [|c s]; [by destruct n|]. destruct n as [|n]; [done|].
  cbn [String.substring] in Ht. injection Ht as -> _. by apply (Hs s).
Qed.

Lemma safeName_shape (title : option string) (chatId : Z) :
  allChars isFolderChar (safeName title chatId) = true
  ∧ (String.length (safeName title chatId) ≤ 50)%nat
  ∧ startsWith "-" (safeName title chatId) = false.
Proof.
  unfold safeName, slice, stripEdgeDashes. cbn [Nat.sub]. split; [|split].
  - apply allChars_substring, dropTrailingDash_chars, dropLeadingDash_chars,
      replaceNonAlnumRuns_chars.
  - apply substring_length_le.
  - apply substring_leading, dropTrailingDash_leading, dropLeadingDash_replaced.
Qed.

(** A text without letters and digits is one run. *)
Lemma replaceNonAlnumRuns_symbols (s : string) :
  allChars (λ c, negb (isLowerAlnum c)) s = true →
  replaceNonAlnumRuns true s = ""
  ∧ (s ≠ "" → replaceNonAlnumRuns false s = "-").
Proof.
  induction s as [|c s IH]; [done|]. cbn [allChars replaceNonAlnumRuns].
  intros [Hc Hs]%andb_prop. apply negb_true_iff in Hc. rewrite Hc.
  destruct (IH Hs) as [Hrun _]. by rewrite Hrun.
Qed.

Lemma toLowerCase_chars (p : ascii → bool) (s : string) :
  allChars (λ c, p (lowerChar c)) s = allChars p (toLowerCase s).
Proof. induction s as [|c s IH]; [done|]. cbn. by rewrite IH. Qed.

Lemma safeName_symbols (t : string) (chatId : Z) :
  t ≠ "" →
  allChars (λ c, negb (isLowerAlnum (lowerChar c))) t = true →
  safeName (Some t) chatId = "".
Proof.
  intros Hne Hsym. unfold safeName, orElse. rewrite (truthy_id t Hne). cbn [default].
  unfold id. rewrite (toLowerCase_chars (λ c, negb (isLowerAlnum c))) in Hsym.
  destruct (replaceNonAlnumRuns_symbols _ Hsym) as [_ Hdash].
  rewrite Hdash; [done|]. by destruct t.
Qed.

End FolderNames.

(** X25: the folder that [getGroupFolder] derives from the title of a group
    chat is ["telegram-"] followed by at most 50 characters, each of them a
    lower-case letter, a digit or a dash, and the first of them not a dash:
    no title leads to a path separator, a dot or a space in the folder name. *)
Theorem group_folder_is_sanitized (title : option string) (chatId : Z) :
  allChars isFolderChar (safeName title chatId) = true
  ∧ (String.length (safeName title chatId) ≤ 50)%nat
  ∧ startsWith "-" (safeName title chatId) = false
  ∧ ∀ E unified now chatType username s,
      objGet (chatKey chatId) (chats s) = None →
      chatType = "group" ∨ chatType = "supergroup" →
      fst (getGroupFolder E unified now chatId chatType title username s)
      = "telegram-" +:+ safeName title chatId.
Proof.
  destruct (safeName_shape title chatId) as (H1 & H2 & H3).
  do 3 (split; [done|]).
  intros E unified now chatType username s Hnone Hty. unfold getGroupFolder.
  rewrite Hnone. by destruct Hty as [-> | ->].
Qed.

(** X26: a group title without any letter or digit gives the empty name: all
    such groups, when not yet registered, get the same folder
    ["telegram-"]. *)
Theorem symbol_titles_share_a_folder (E : Env) (unified : bool) (now : Z) (chatId : Z)
    (title : string) (username : option string) (s : ChatStore) :
  title ≠ "" →
  allChars (λ c, negb (isLowerAlnum (lowerChar c))) title = true →
  objGet (chatKey chatId) (chats s) = None →
  fst (getGroupFolder E unified now chatId "group" (Some title) username s) = "telegram-".
Proof.
  intros Hne Hsym Hnone. unfold getGroupFolder. rewrite Hnone.
  cbn [String.eqb Ascii.eqb Bool.eqb andb orb fst].
  by rewrite (safeName_symbols title chatId Hne Hsym).
Qed.

Lemma symbol_titles_share_a_folder_witness :
  fst (getGroupFolder Sample.env false 0 (-5) "group" (Some "!!!") None
         {| chats := []; chatDirs := ∅ |})
  = fst (getGroupFolder Sample.env false 0 (-6) "group" (Some "***") None
           {| chats := []; chatDirs := ∅ |}).
Proof.
  transitivity "telegram-".
  - apply (symbol_titles_share_a_folder Sample.env false 0 (-5) "!!!" None
             {| chats := []; chatDirs := ∅ |}); [discriminate|reflexivity|reflexivity].
  - symmetry.
    apply (symbol_titles_share_a_folder Sample.env false 0 (-6) "***" None
             {| chats := []; chatDirs := ∅ |}); [discriminate|reflexivity|reflexivity].
Defined.

(** X27: outside the unified main channel, two private chats that are not
    registered yet never get the same folder. *)
Theorem private_folders_differ (E : Env) (now now' : Z) (a b : Z)
    (title title' username username' : option string) (s s' : ChatStore) :
  a ≠ b →
  objGet (chatKey a) (chats s) = None →
  objGet (chatKey b) (chats s') = None →
  fst (getGroupFolder E false now a "private" title username s)
  ≠ fst (getGroupFolder E false now' b "private" title' username' s').
Proof.
  intros Hab Ha Hb. unfold getGroupFolder. rewrite Ha, Hb.
  cbn [String.eqb Ascii.eqb Bool.eqb andb fst].
  intros Heq. apply String.app_inj in Heq. apply showZ_inj in Heq. congruence.
Qed.

Lemma private_folders_differ_witness :
  fst (getGroupFolder Sample.env false 0 7 "private" None None
         {| chats := []; chatDirs := ∅ |})
  ≠ fst (getGroupFolder Sample.env false 0 8 "private" None None
           {| chats := []; chatDirs := ∅ |}).
Proof.
  apply (private_folders_differ Sample.env 0 0 7 8 None None None None
           {| chats := []; chatDirs := ∅ |} {| chats := []; chatDirs := ∅ |}).
  - discriminate.
  - reflexivity.
  - reflexivity.
Defined.

(** ** The working directory of the cloud coder *)

Section RepoName.




End RepoName.

